(** * matcha: the email body renderer (view/html.go)

    A shallow embedding of the renderer of the matcha mail client and the
    properties of its specification that concern it, with the code around
    the renderer: the accounts of package config, the inline parts that
    package tui hands to the renderer, and the line wrapping of package
    sender.

    Go strings are byte strings: they are modelled by [string], one [ascii]
    per byte.  Go's [int] is the 64-bit integer of the released binaries
    (amd64, arm64); it is modelled by [Z] with the wrap-around written out
    where the code computes with it.

    The renderer calls into packages that are not part of the repository
    (goldmark, x/net/html behind goquery, lipgloss, image, time, the tty
    ioctl, net/http).  What they compute is taken as the variables of the
    sections below; what the repository's own code does with their results
    is transcribed from the source. *)

From Stdlib Require Import String Ascii List ZArith Lia Bool Arith.
From Stdlib Require Import DecimalString DecimalN DecimalZ.
Import ListNotations.

#[local] Set Warnings "-register-all".

Local Open Scope list_scope.
Local Open Scope string_scope.

(** ** Control characters of the escape sequences *)

Definition LF  : string := String "010"%char "".
Definition ESC : string := String "027"%char "".
Definition BEL : string := String "007"%char "".

(** Go's [len(s)]. *)
Abbreviation len := String.length.

(** ** Package strings of the Go library, on byte strings *)

Module strings.

Fixpoint HasPrefix (s prefix : string) {struct prefix} : bool :=
  match prefix, s with
  | EmptyString, _ => true
  | String a p, String b r => Ascii.eqb a b && HasPrefix r p
  | String _ _, EmptyString => false
  end.

Fixpoint drop (n : nat) (s : string) : string :=
  match n, s with
  | O, _ => s
  | S k, String _ r => drop k r
  | S _, EmptyString => EmptyString
  end.

Fixpoint take (n : nat) (s : string) : string :=
  match n, s with
  | O, _ => EmptyString
  | S k, String a r => String a (take k r)
  | S _, EmptyString => EmptyString
  end.

(** [s[lo:hi]] for [lo <= hi <= len(s)]. *)
Definition slice (s : string) (lo hi : nat) : string :=
  take (hi - lo) (drop lo s).

Definition TrimPrefix (s prefix : string) : string :=
  if HasPrefix s prefix then drop (len prefix) s else s.

Fixpoint rev_onto (s acc : string) : string :=
  match s with
  | EmptyString => acc
  | String a r => rev_onto r (String a acc)
  end.

Definition rev (s : string) : string := rev_onto s EmptyString.

Definition HasSuffix (s suffix : string) : bool :=
  HasPrefix (rev s) (rev suffix).

Definition TrimSuffix (s suffix : string) : string :=
  if HasSuffix s suffix then take (len s - len suffix) s else s.

(** [Contains(s, substr)]: some suffix of [s] starts with [substr]. *)
Fixpoint Contains (s substr : string) : bool :=
  HasPrefix s substr ||
  match s with
  | EmptyString => false
  | String _ r => Contains r substr
  end.

(** [Index(s, substr)], with [None] for Go's -1. *)
Fixpoint Index (s substr : string) : option nat :=
  if HasPrefix s substr then Some O
  else match s with
       | EmptyString => None
       | String _ r => option_map S (Index r substr)
       end.

Fixpoint Repeat (s : string) (count : nat) : string :=
  match count with
  | O => EmptyString
  | S k => s ++ Repeat s k
  end.

Fixpoint Join (elems : list string) (sep : string) : string :=
  match elems with
  | [] => EmptyString
  | [e] => e
  | e :: rest => e ++ sep ++ Join rest sep
  end.

(** [Split(s, sep)] for a one-byte separator, the only use in the source
    ([strings.Split(text, "\n")]): the result always has one more element
    than [s] has separators. *)
Fixpoint SplitByte (s : string) (sep : ascii) : list string :=
  match s with
  | EmptyString => [EmptyString]
  | String a r =>
      if Ascii.eqb a sep then EmptyString :: SplitByte r sep
      else match SplitByte r sep with
           | [] => [String a EmptyString]
           | l :: ls => String a l :: ls
           end
  end.

Definition Split (s sep : string) : list string :=
  match sep with
  | String c EmptyString => SplitByte s c
  | _ => [s]
  end.

(** [Trim(s, cutset)] for a cutset of ASCII bytes. *)
Fixpoint inCutset (a : ascii) (cutset : string) : bool :=
  match cutset with
  | EmptyString => false
  | String c r => Ascii.eqb a c || inCutset a r
  end.

Fixpoint TrimLeft (s cutset : string) : string :=
  match s with
  | String a r => if inCutset a cutset then TrimLeft r cutset else s
  | EmptyString => EmptyString
  end.

Definition TrimRight (s cutset : string) : string :=
  rev (TrimLeft (rev s) cutset).

Definition Trim (s cutset : string) : string :=
  TrimRight (TrimLeft s cutset) cutset.

(** The runes for which [unicode.IsSpace] holds, in UTF-8: the six ASCII
    spaces, U+0085, U+00A0, U+1680, U+2000 to U+200A, U+2028, U+2029,
    U+202F, U+205F and U+3000. *)
Definition bytes (l : list nat) : string :=
  string_of_list_ascii (map ascii_of_nat l).

Definition spaceRunes : list string :=
  map bytes
    [ [9]; [10]; [11]; [12]; [13]; [32];
      [194; 133]; [194; 160]; [225; 154; 128];
      [226; 128; 128]; [226; 128; 129]; [226; 128; 130]; [226; 128; 131];
      [226; 128; 132]; [226; 128; 133]; [226; 128; 134]; [226; 128; 135];
      [226; 128; 136]; [226; 128; 137]; [226; 128; 138];
      [226; 128; 168]; [226; 128; 169]; [226; 128; 175];
      [226; 129; 159]; [227; 128; 128] ].

(** The first space rune that [s] starts with, if any. *)
Fixpoint leadingSpace (runes : list string) (s : string) : option string :=
  match runes with
  | [] => None
  | r :: rs => if HasPrefix s r then Some r else leadingSpace rs s
  end.

Fixpoint trimLeftSpace (fuel : nat) (s : string) : string :=
  match fuel with
  | O => s
  | S k =>
      match leadingSpace spaceRunes s with
      | Some r => trimLeftSpace k (drop (len r) s)
      | None => s
      end
  end.

Definition TrimLeftSpace (s : string) : string :=
  trimLeftSpace (len s) s.

(** Trailing runes are decoded backwards; a space rune ends [s] exactly
    when the reversed string starts with the reversed encoding. *)
Fixpoint trimRightSpace (fuel : nat) (r : string) : string :=
  match fuel with
  | O => r
  | S k =>
      match leadingSpace (map rev spaceRunes) r with
      | Some x => trimRightSpace k (drop (len x) r)
      | None => r
      end
  end.

Definition TrimRightSpace (s : string) : string :=
  rev (trimRightSpace (len s) (rev s)).

Definition TrimSpace (s : string) : string :=
  TrimRightSpace (TrimLeftSpace s).

End strings.

Import strings.

(** ** Package regexp of the Go library

    The expressions of the renderer are built from literals, repeated
    character classes (greedy or lazy), capture groups that are not nested,
    and the anchors.  [run] lists the ways an expression matches at a place
    of the text in the order of preference of the package (leftmost-first:
    a greedy repetition prefers more, a lazy one fewer); the match the
    package reports is the first of the list.  The package reads runes; the
    classes and literals used here are ASCII, next to which a multi-byte
    rune is an opaque run of bytes that [.] accepts, so matching byte by
    byte finds the same matches and groups. *)

Module regexp.

Inductive re : Type :=
| Lit (s : string)
| Rep (greedy : bool) (min : nat) (cls : ascii -> bool)
| Cap (r : re)
| Cat (r1 r2 : re)
| Bol
| Eol.

(** A place in the text: bytes consumed so far, text left to read, and the
    groups closed so far. *)
Record place : Type := mkPlace { pos : nat; rest : string; caps : list string }.

(** Lengths of the prefixes of [s] made of bytes of the class, shortest
    first. *)
Fixpoint spans (cls : ascii -> bool) (s : string) : list nat :=
  match s with
  | String a r => if cls a then O :: map S (spans cls r) else [O]
  | EmptyString => [O]
  end.

Definition advance (p : place) (k : nat) : place :=
  mkPlace (pos p + k) (drop k (rest p)) (caps p).

Fixpoint run (r : re) (p : place) : list place :=
  match r with
  | Lit l => if HasPrefix (rest p) l then [advance p (len l)] else []
  | Rep greedy min cls =>
      let ks := filter (fun k => Nat.leb min k) (spans cls (rest p)) in
      map (advance p) (if greedy then List.rev ks else ks)
  | Cap r1 =>
      map (fun q => mkPlace (pos q) (rest q)
                      (caps q ++ [take (pos q - pos p) (rest p)])%list)
          (run r1 p)
  | Cat r1 r2 => flat_map (run r2) (run r1 p)
  | Bol => if Nat.eqb (pos p) 0 then [p] else []
  | Eol => match rest p with EmptyString => [p] | _ => [] end
  end.

(** The preferred match starting at byte [i], where [s] is the text from
    [i] on: its length and its groups. *)
Definition matchAt (r : re) (i : nat) (s : string) : option (nat * list string) :=
  match run r (mkPlace i s []) with
  | q :: _ => Some (pos q - i, caps q)
  | [] => None
  end.

Fixpoint findFrom (r : re) (i : nat) (s : string) : option (list string) :=
  match matchAt r i s with
  | Some (n, groups) => Some (take n s :: groups)
  | None =>
      match s with
      | EmptyString => None
      | String _ t => findFrom r (S i) t
      end
  end.

(** [re.FindStringSubmatch(s)]: the leftmost match and its groups, [None]
    for nil. *)
Definition FindStringSubmatch (r : re) (s : string) : option (list string) :=
  findFrom r 0 s.

(** [re.ReplaceAllStringFunc(s, repl)].  After a match the search resumes
    behind it: [skip] counts the bytes of the current match still to pass.
    None of the expressions below matches the empty string, for which the
    package has rules of its own. *)
Fixpoint replaceFrom (r : re) (repl : string -> string)
         (i skip : nat) (s : string) : string :=
  match s with
  | EmptyString => EmptyString
  | String a t =>
      match skip with
      | S k => replaceFrom r repl (S i) k t
      | O =>
          match matchAt r i s with
          | Some (S n, _) => repl (take (S n) s) ++ replaceFrom r repl (S i) n t
          | _ => String a (replaceFrom r repl (S i) 0 t)
          end
      end
  end.

Definition ReplaceAllStringFunc (r : re) (s : string) (repl : string -> string) : string :=
  replaceFrom r repl 0 0 s.

(** [re.ReplaceAllString(s, repl)] for a replacement without [$]. *)
Definition ReplaceAllString (r : re) (s repl : string) : string :=
  ReplaceAllStringFunc r s (fun _ => repl).

(** The classes [\d], [\s], [.] and the single byte [\n]. *)
Definition digit (a : ascii) : bool :=
  let n := nat_of_ascii a in Nat.leb 48 n && Nat.leb n 57.
Definition space (a : ascii) : bool :=
  let n := nat_of_ascii a in
  Nat.eqb n 9 || Nat.eqb n 10 || Nat.eqb n 12 || Nat.eqb n 13 || Nat.eqb n 32.
Definition dot (a : ascii) : bool := negb (Nat.eqb (nat_of_ascii a) 10).
Definition newline (a : ascii) : bool := Nat.eqb (nat_of_ascii a) 10.

Fixpoint seq (rs : list re) : re :=
  match rs with
  | [] => Lit EmptyString
  | [r] => r
  | r :: rest => Cat r (seq rest)
  end.

End regexp.

Import regexp.

(** ** Package fmt of the Go library: [%d] *)

Definition maxInt : Z := 2 ^ 63 - 1.

(** [fmt.Sprintf("%d", n)]. *)
Definition itoa (n : Z) : string := NilZero.string_of_int (Z.to_int n).

(** [fmt.Sscanf(s, "%d", &v)] on a run of decimal digits, which is what the
    call sites pass (a [\d+] group): the value, or [None] for the error the
    scan reports when the number does not fit an int, in which case [v] is
    left as it was. *)
Definition Sscanf_d (s : string) : option Z :=
  match NilZero.uint_of_string s with
  | Some u =>
      let v := Z.of_N (N.of_uint u) in
      if (v <=? maxInt)%Z then Some v else None
  | None => None
  end.

(** ** Package config: the accounts of the user *)

Module config.

Record Account : Type := mkAccount {
  ID : string;
  Name : string;
  Email : string;
  Password : string;
  ServiceProvider : string;
  FetchEmail : string;
  IMAPServer : string;
  IMAPPort : Z;
  SMTPServer : string;
  SMTPPort : Z
}.

Record Config : Type := mkConfig {
  Accounts : list Account;
  DisableImages : bool
}.

Definition GetIMAPServer (a : Account) : string :=
  if ServiceProvider a =? "gmail" then "imap.gmail.com"
  else if ServiceProvider a =? "icloud" then "imap.mail.me.com"
  else if ServiceProvider a =? "custom" then IMAPServer a
  else "".

Definition GetIMAPPort (a : Account) : Z :=
  if (ServiceProvider a =? "gmail") || (ServiceProvider a =? "icloud") then 993%Z
  else if ServiceProvider a =? "custom" then
    if negb (IMAPPort a =? 0)%Z then IMAPPort a else 993%Z
  else 993%Z.

Definition GetSMTPServer (a : Account) : string :=
  if ServiceProvider a =? "gmail" then "smtp.gmail.com"
  else if ServiceProvider a =? "icloud" then "smtp.mail.me.com"
  else if ServiceProvider a =? "custom" then SMTPServer a
  else "".

Definition GetSMTPPort (a : Account) : Z :=
  if (ServiceProvider a =? "gmail") || (ServiceProvider a =? "icloud") then 587%Z
  else if ServiceProvider a =? "custom" then
    if negb (SMTPPort a =? 0)%Z then SMTPPort a else 587%Z
  else 587%Z.

(** [account.ID = id] and [account.FetchEmail = email]. *)
Definition withID (a : Account) (id : string) : Account :=
  mkAccount id (Name a) (Email a) (Password a) (ServiceProvider a)
    (FetchEmail a) (IMAPServer a) (IMAPPort a) (SMTPServer a) (SMTPPort a).

Definition withFetchEmail (a : Account) (email : string) : Account :=
  mkAccount (ID a) (Name a) (Email a) (Password a) (ServiceProvider a)
    email (IMAPServer a) (IMAPPort a) (SMTPServer a) (SMTPPort a).

(** The methods of [*Config] that change it return the new value of the
    receiver.  [uuid] is what [uuid.New().String()] answers when it is
    asked. *)
Definition AddAccount (c : Config) (account : Account) (uuid : string) : Config :=
  let account := if ID account =? "" then withID account uuid else account in
  let account :=
    if (FetchEmail account =? "") && negb (Email account =? "")
    then withFetchEmail account (Email account) else account in
  mkConfig (Accounts c ++ [account])%list (DisableImages c).

(** The loops [for i := range c.Accounts] that stop at the first account
    for which a test holds: the index at which they stop. *)
Fixpoint firstIndex (test : Account -> bool) (accounts : list Account) : option nat :=
  match accounts with
  | [] => None
  | acc :: rest =>
      if test acc then Some 0 else option_map S (firstIndex test rest)
  end.

Definition RemoveAccount (c : Config) (id : string) : Config * bool :=
  match firstIndex (fun acc => ID acc =? id) (Accounts c) with
  | Some i =>
      (mkConfig (firstn i (Accounts c) ++ skipn (i + 1) (Accounts c))%list
                (DisableImages c), true)
  | None => (c, false)
  end.

(** A [*Account] that points into [c.Accounts] is the index of the
    element, [None] is nil; [deref] reads the account it points to. *)
Definition GetAccountByID (c : Config) (id : string) : option nat :=
  firstIndex (fun acc => ID acc =? id) (Accounts c).

Definition GetAccountByEmail (c : Config) (email : string) : option nat :=
  firstIndex (fun acc => Email acc =? email) (Accounts c).

Definition HasAccounts (c : Config) : bool :=
  Nat.ltb 0 (List.length (Accounts c)).

Definition GetFirstAccount (c : Config) : option nat :=
  if Nat.ltb 0 (List.length (Accounts c)) then Some 0 else None.

Definition deref (c : Config) (p : option nat) : option Account :=
  match p with
  | Some i => nth_error (Accounts c) i
  | None => None
  end.

End config.

(** ** Package fetcher: the parts of a message *)

Module fetcher.

Record Attachment : Type := mkAttachment {
  Filename : string;
  PartID : string;
  Data : string;
  Encoding : string;
  MIMEType : string;
  ContentID : string;
  Inline : bool
}.

End fetcher.

(** ** Package encoding/base64 of the Go library: the standard encoding *)

Module base64.

Definition encodeStd : string :=
  "ABCDEFGHIJKLMNOPQRSTUVWXYZabcdefghijklmnopqrstuvwxyz0123456789+/".

(** The character of a 6-bit value. *)
Definition sextet (n : nat) : ascii :=
  match String.get n encodeStd with
  | Some c => c
  | None => "="%char
  end.

(** [StdEncoding.EncodeToString]: three bytes give four characters, and
    what is left at the end is padded with [=]. *)
Fixpoint EncodeToString (src : string) : string :=
  match src with
  | EmptyString => EmptyString
  | String a EmptyString =>
      let x := nat_of_ascii a in
      String (sextet (x / 4)) (String (sextet (x mod 4 * 16)) "==")
  | String a (String b EmptyString) =>
      let x := nat_of_ascii a in
      let y := nat_of_ascii b in
      String (sextet (x / 4))
        (String (sextet (x mod 4 * 16 + y / 16))
           (String (sextet (y mod 16 * 4)) "="))
  | String a (String b (String c rest)) =>
      let x := nat_of_ascii a in
      let y := nat_of_ascii b in
      let z := nat_of_ascii c in
      String (sextet (x / 4))
        (String (sextet (x mod 4 * 16 + y / 16))
           (String (sextet (y mod 16 * 4 + z / 64))
              (String (sextet (z mod 64)) (EncodeToString rest))))
  end.

End base64.

(** ** Package sender: the lines of a base64 body *)

Module sender.

Definition lineLength : nat := 76.

Definition CRLF : string := String "013"%char (String "010"%char "").

(** The loop [for i := 0; i < len(data); i += lineLength]; [fuel] bounds
    the number of rounds. *)
Fixpoint wrapLoop (fuel : nat) (data : string) (i : nat) : string :=
  match fuel with
  | O => ""
  | S fuel' =>
      if Nat.ltb i (len data) then
        let end_ := i + lineLength in
        let end_ := if Nat.ltb (len data) end_ then len data else end_ in
        slice data i end_
        ++ (if Nat.ltb end_ (len data) then CRLF else "")
        ++ wrapLoop fuel' data (i + lineLength)
      else ""
  end.

Definition wrapBase64 (data : string) : string :=
  wrapLoop (len data) data 0.

End sender.

(** ** The renderer *)

(** [unix.Winsize], as far as the renderer reads it (both fields are
    16-bit and unsigned). *)
Record Winsize : Type := mkWinsize { Row : Z; Ypixel : Z }.

(** [InlineImage]: a MIME part of the message, already base64-encoded. *)
Record InlineImage : Type := mkInlineImage { CID : string; Base64 : string }.

Definition imageRowPlaceholderPrefix : string := "[[MATCHA_IMG_ROWS:".
Definition imageRowPlaceholderSuffix : string := "]]".

(** Two's-complement wrap-around of a 64-bit [int]. *)
Definition wrap (x : Z) : Z := ((x + 2 ^ 63) mod 2 ^ 64 - 2 ^ 63)%Z.

Section Renderer.

(** *** What the renderer reads from outside *)

(** [os.Getenv]: the value of a variable, empty when it is not set. *)
Variable Getenv : string -> string.
(** [strings.ToLower], with the case mapping of the Unicode tables. *)
Variable ToLower : string -> string.
(** [unix.IoctlGetWinsize(fd, TIOCGWINSZ)], [None] for an error. *)
Variable IoctlGetWinsize : Z -> option Winsize.
(** [os.Open("/dev/tty")]: the descriptor, [None] for an error. *)
Variable openTty : option Z.
(** [base64.StdEncoding.DecodeString], [None] for an error. *)
Variable base64Decode : string -> option string.
(** [image.Decode] followed by [Bounds().Dy()]: the pixel height of the
    picture, [None] when the bytes are no picture. *)
Variable imageDecodeHeight : string -> option Z.
(** The part of [fetchRemoteBase64] that leaves the process: the HTTP GET
    with its 5 s timeout, the decoding of the picture and its encoding as
    base64 PNG; empty on any failure. *)
Variable remotePNGBase64 : string -> string.

(** *** Capability detector *)

Definition nonEmpty (s : string) : bool := negb (s =? "").

Fixpoint containsAny (s : string) (words : list string) : bool :=
  match words with
  | [] => false
  | w :: ws => if Contains s w then true else containsAny s ws
  end.

Definition hyperlinkSupported : bool :=
  let term := ToLower (Getenv "TERM") in
  let supportedTerms :=
    ["kitty"; "ghostty"; "wezterm"; "alacritty"; "foot"; "tmux"; "screen"] in
  if containsAny term supportedTerms then true
  else
    let termProgram := ToLower (Getenv "TERM_PROGRAM") in
    let supportedPrograms :=
      ["iterm.app"; "hyper"; "vscode"; "ghostty"; "wezterm"] in
    if containsAny termProgram supportedPrograms then true
    else if nonEmpty (Getenv "VTE_VERSION") then true
    else if nonEmpty (Getenv "KITTY_WINDOW_ID")
            || nonEmpty (Getenv "GHOSTTY_RESOURCES_DIR")
            || nonEmpty (Getenv "WEZTERM_EXECUTABLE") then true
    else false.

Definition kittySupported : bool :=
  let term := ToLower (Getenv "TERM") in
  if Contains term "kitty" then true
  else nonEmpty (Getenv "KITTY_WINDOW_ID").

Definition ghosttySupported : bool :=
  let term := ToLower (Getenv "TERM") in
  if Contains term "ghostty" then true
  else if Getenv "TERM_PROGRAM" =? "ghostty" then true
  else nonEmpty (Getenv "GHOSTTY_RESOURCES_DIR").

Definition iterm2Supported : bool :=
  let termProgram := ToLower (Getenv "TERM_PROGRAM") in
  if termProgram =? "iterm.app" then true
  else if nonEmpty (Getenv "ITERM_SESSION_ID")
          || nonEmpty (Getenv "ITERM_PROFILE") then true
  else false.

Definition weztermSupported : bool :=
  if nonEmpty (Getenv "WEZTERM_EXECUTABLE")
     || nonEmpty (Getenv "WEZTERM_CONFIG_FILE") then true
  else
    let termProgram := ToLower (Getenv "TERM_PROGRAM") in
    if termProgram =? "wezterm" then true
    else
      let term := ToLower (Getenv "TERM") in
      if Contains term "wezterm" then true else false.

Definition waystSupported : bool :=
  let term := ToLower (Getenv "TERM") in
  if Contains term "wayst" then true
  else
    let termProgram := ToLower (Getenv "TERM_PROGRAM") in
    if termProgram =? "wayst" then true else false.

Definition warpSupported : bool :=
  let termProgram := ToLower (Getenv "TERM_PROGRAM") in
  if termProgram =? "warp" then true
  else if nonEmpty (Getenv "WARP_IS_LOCAL_SHELL_SESSION")
          || nonEmpty (Getenv "WARP_COMBINED_PROMPT_COMMAND_FINISHED") then true
  else false.

Definition konsoleSupported : bool :=
  if nonEmpty (Getenv "KONSOLE_DBUS_SESSION")
     || nonEmpty (Getenv "KONSOLE_VERSION") then true
  else
    let termProgram := ToLower (Getenv "TERM_PROGRAM") in
    if termProgram =? "konsole" then true else false.

Definition imageProtocolSupported : bool :=
  kittySupported || ghosttySupported || iterm2Supported ||
  weztermSupported || waystSupported || warpSupported || konsoleSupported.

(** *** Terminal cell height *)

Definition defaultCellHeight : Z := 18.

Definition getCellHeightFromFd (fd : Z) : Z :=
  match IoctlGetWinsize fd with
  | None => 0
  | Some ws =>
      if (0 <? Row ws)%Z && (0 <? Ypixel ws)%Z then
        let cellHeight := Z.quot (Ypixel ws) (Row ws) in
        if (0 <? cellHeight)%Z then cellHeight else 0%Z
      else 0%Z
  end.

(** The loop over the descriptors: the first positive answer. *)
Fixpoint firstCellHeight (fds : list Z) : option Z :=
  match fds with
  | [] => None
  | fd :: rest =>
      let cellHeight := getCellHeightFromFd fd in
      if (0 <? cellHeight)%Z then Some cellHeight else firstCellHeight rest
  end.

Definition stdout : Z := 1.
Definition stdin : Z := 0.
Definition stderr : Z := 2.

Definition getTerminalCellSize : Z :=
  let fds := [stdout; stdin; stderr] in
  match firstCellHeight fds with
  | Some cellHeight => cellHeight
  | None =>
      match openTty with
      | Some tty =>
          let cellHeight := getCellHeightFromFd tty in
          if (0 <? cellHeight)%Z then cellHeight else defaultCellHeight
      | None => defaultCellHeight
      end
  end.

(** *** Hyperlinks, payloads *)

Definition hyperlink (url text : string) : string :=
  let text := if text =? "" then url else text in
  let supported := hyperlinkSupported in
  if supported then
    ESC ++ "]8;;" ++ url ++ BEL ++ text ++ ESC ++ "]8;;" ++ BEL
  else if text =? url then "&lt;" ++ url ++ "&gt;"
  else text ++ " &lt;" ++ url ++ "&gt;".

Definition fetchRemoteBase64 (url : string) : string :=
  if negb (HasPrefix url "http://") && negb (HasPrefix url "https://") then ""
  else remotePNGBase64 url.

Definition dataURIBase64 (uri : string) : string :=
  if negb (HasPrefix uri "data:") then ""
  else match Index uri "," with
       | None => ""
       | Some comma =>
           if Nat.leb (len uri) (comma + 1) then "" else drop (comma + 1) uri
       end.

(** *** Encoders *)

(** The rows an image takes, as both encoders compute them before they
    write anything. *)
Definition imageRows (payload : string) : Z :=
  match base64Decode payload with
  | Some data =>
      match imageDecodeHeight data with
      | Some h =>
          let cellHeight := getTerminalCellSize in
          let rows := Z.quot (wrap (h + cellHeight - 1)) cellHeight in
          if (rows <? 1)%Z then 1%Z else rows
      | None => 1%Z
      end
  | None => 1%Z
  end.

Definition chunkSize : nat := 4096.

(** The loop [for offset := 0; offset < len(payload); offset += chunkSize];
    [fuel] bounds the number of rounds. *)
Fixpoint kittyLoop (fuel : nat) (payload : string) (offset : nat) : string :=
  match fuel with
  | O => ""
  | S fuel' =>
      if Nat.ltb offset (len payload) then
        let end_ := offset + chunkSize in
        let end_ := if Nat.ltb (len payload) end_ then len payload else end_ in
        let more := if Nat.ltb end_ (len payload) then "1" else "0" in
        let chunk := slice payload offset end_ in
        (if Nat.eqb offset 0
         then ESC ++ "_Gf=100,a=T,q=2,C=1,m=" ++ more ++ ";" ++ chunk ++ ESC ++ "\"
         else ESC ++ "_Gm=" ++ more ++ ";" ++ chunk ++ ESC ++ "\")
        ++ kittyLoop fuel' payload (offset + chunkSize)
      else ""
  end.

Definition imageRowPlaceholder (rows : Z) : string :=
  imageRowPlaceholderPrefix ++ itoa rows ++ imageRowPlaceholderSuffix.

Definition kittyInlineImage (payload : string) : string :=
  if payload =? "" then ""
  else
    let rows := imageRows payload in
    kittyLoop (len payload) payload 0
    ++ LF ++ imageRowPlaceholder rows ++ LF.

Definition iterm2InlineImage (payload : string) : string :=
  if payload =? "" then ""
  else
    let rows := imageRows payload in
    let result := ESC ++ "]1337;File=inline=1:" ++ payload ++ BEL ++ LF in
    result ++ imageRowPlaceholder rows ++ LF.

Definition renderInlineImage (payload : string) : string :=
  if payload =? "" then ""
  else if kittySupported || ghosttySupported || weztermSupported
          || waystSupported || konsoleSupported
  then kittyInlineImage payload
  else if iterm2Supported || warpSupported
  then iterm2InlineImage payload
  else "".

(** *** Text finalizer *)

(** [regexp.QuoteMeta(imageRowPlaceholderPrefix) + `(\d+)` +
    regexp.QuoteMeta(imageRowPlaceholderSuffix)] *)
Definition imageRowRegex : re :=
  seq [Lit imageRowPlaceholderPrefix; Cap (Rep true 1 digit);
       Lit imageRowPlaceholderSuffix].

Definition expandImageRowPlaceholders (text : string) : string :=
  ReplaceAllStringFunc imageRowRegex text (fun match_ =>
    let numStr := TrimPrefix match_ imageRowPlaceholderPrefix in
    let numStr := TrimSuffix numStr imageRowPlaceholderSuffix in
    let rows :=
      match Sscanf_d numStr with
      | Some rows => if (rows <? 1)%Z then 1%Z else rows
      | None => 1%Z
      end in
    Repeat LF (Z.to_nat rows)).

(** [`\n{3,}`] *)
Definition newlinesRegex : re := Rep true 3 newline.

(** [`\[\[MATCHA_QUOTE:(\d+)\]\]`] *)
Definition quoteRegex : re :=
  seq [Lit "[[MATCHA_QUOTE:"; Cap (Rep true 1 digit); Lit "]]"].

(** [`On\s+(.+?),\s+(.+?)\s+wrote:`], the expression of the blockquote
    pass, and [`^On\s+(.+?),\s+(.+?)\s+wrote:$`], the one of the line
    scan. *)
Definition onWrote : list re :=
  [Lit "On"; Rep true 1 space; Cap (Rep false 1 dot); Lit ",";
   Rep true 1 space; Cap (Rep false 1 dot); Rep true 1 space; Lit "wrote:"].
Definition onWroteRegex : re := seq onWrote.
Definition onWroteLineRegex : re := seq (Bol :: onWrote ++ [Eol])%list.

(** *** Quote boxes *)

(** Package time: [time.Time], [time.Parse(layout, value)] with
    [None] for an error, and [t.Format(layout)]. *)
Variable Instant : Type.
Variable timeParse : string -> string -> option Instant.
Variable timeFormat : Instant -> string -> string.

(** [quoteBoxStyle.Render] and [quoteHeaderStyle.Render] of the two
    package-level lipgloss styles. *)
Variable quoteBoxStyle : string -> string.
Variable quoteHeaderStyle : string -> string.

Definition dateFormats : list string :=
  ["Jan 2, 2006 at 3:04 PM";
   "02:01:06 15:04";
   "2006-01-02 15:04:05";
   "Mon, 02 Jan 2006 15:04:05 -0700";
   "Mon, 2 Jan 2006 15:04:05 -0700";
   "2 Jan 2006 15:04:05";
   "January 2, 2006 at 3:04 PM";
   "Jan 2, 2006 3:04 PM";
   "Mon, 02 Jan 2006 15:04:05 -0700";
   "Mon, 02 Jan 2006 15:04:05 MST";
   "02 Jan 06 15:04 -0700";
   "02 Jan 06 15:04 MST"].

Fixpoint firstParse (formats : list string) (dateStr : string) : option Instant :=
  match formats with
  | [] => None
  | format :: rest =>
      match timeParse format dateStr with
      | Some t => Some t
      | None => firstParse rest dateStr
      end
  end.

Definition parseDateForDisplay (dateStr : string) : string :=
  match firstParse dateFormats dateStr with
  | Some t => timeFormat t "02:01:06 15:04"
  | None => dateStr
  end.

Definition renderQuoteBox (from date : string) (lines : list string) : string :=
  let header :=
    if nonEmpty from || nonEmpty date then
      if nonEmpty from && nonEmpty date then quoteHeaderStyle (from ++ "  " ++ date)
      else if nonEmpty from then quoteHeaderStyle from
      else quoteHeaderStyle date
    else "" in
  let content := Join lines LF in
  let boxContent :=
    if nonEmpty header then header ++ LF ++ LF ++ content else content in
  quoteBoxStyle boxContent.

(** The record the blockquote pass keeps of a quote. *)
Record quote : Type := mkQuote { q_from : string; q_date : string; q_content : string }.

(** The replacement of quote placeholders in [processBody].  A failed
    scan is not looked at and leaves [idx] at its zero value. *)
Definition resolveQuotePlaceholders (quoteData : list quote) (text : string) : string :=
  ReplaceAllStringFunc quoteRegex text (fun match_ =>
    let idxStr :=
      match FindStringSubmatch quoteRegex match_ with
      | Some (_ :: g :: _) => g
      | _ => ""
      end in
    let idx := match Sscanf_d idxStr with Some v => v | None => 0%Z end in
    if (0 <=? idx)%Z && (idx <? Z.of_nat (List.length quoteData))%Z then
      match nth_error quoteData (Z.to_nat idx) with
      | Some q => renderQuoteBox (q_from q) (q_date q) (Split (q_content q) LF)
      | None => match_
      end
    else match_).

(** The variables of the loop of [styleQuotedReplies]. *)
Record scan : Type := mkScan {
  result : list string;
  quoteBlock : list string;
  quoteFrom : string;
  quoteDate : string;
  inQuote : bool
}.

Definition flushQuote (st : scan) : list string :=
  (result st ++ [renderQuoteBox (quoteFrom st) (quoteDate st) (quoteBlock st)])%list.

(** One round of the loop at [line], with the lines after it. *)
Definition scanLine (line : string) (after : list string) (st : scan) : scan :=
  let trimmedLine := TrimSpace line in
  match FindStringSubmatch onWroteLineRegex trimmedLine with
  | Some matches =>
      let flush := inQuote st && Nat.ltb 0 (List.length (quoteBlock st)) in
      mkScan (if flush then flushQuote st else result st)
             (if flush then [] else quoteBlock st)
             (nth 2 matches "")
             (parseDateForDisplay (nth 1 matches ""))
             true
  | None =>
      if HasPrefix trimmedLine ">" then
        let quotedContent := TrimPrefix trimmedLine ">" in
        let quotedContent := TrimPrefix quotedContent " " in
        mkScan (result st)
               (quoteBlock st ++ [quotedContent])%list
               (if inQuote st then quoteFrom st else "")
               (if inQuote st then quoteDate st else "")
               true
      else if inQuote st then
        let nextQuoted :=
          match after with
          | next :: _ => HasPrefix (TrimSpace next) ">"
          | [] => false
          end in
        if (trimmedLine =? "") && nextQuoted then
          mkScan (result st) (quoteBlock st ++ [""])%list
                 (quoteFrom st) (quoteDate st) true
        else if (trimmedLine =? "") && Nat.eqb (List.length (quoteBlock st)) 0 then
          st
        else
          let flush := Nat.ltb 0 (List.length (quoteBlock st)) in
          mkScan ((if flush then flushQuote st else result st) ++ [line])%list
                 (if flush then [] else quoteBlock st)
                 "" "" false
      else
        mkScan (result st ++ [line])%list (quoteBlock st)
               (quoteFrom st) (quoteDate st) false
  end.

Fixpoint scanLines (lines : list string) (st : scan) : scan :=
  match lines with
  | [] => st
  | line :: after => scanLines after (scanLine line after st)
  end.

(** The slice [result] when the function joins it. *)
Definition styledLines (text : string) : list string :=
  let lines := Split text LF in
  let st := scanLines lines (mkScan [] [] "" "" false) in
  if inQuote st && Nat.ltb 0 (List.length (quoteBlock st))
  then flushQuote st else result st.

Definition styleQuotedReplies (text : string) : string :=
  Join (styledLines text) LF.

(** *** The document tree

    The tree that [goquery.NewDocumentFromReader] builds: text nodes,
    elements with their attributes, and the nodes that carry no text
    (comments, the doctype).  A document is the list of the nodes under
    its root. *)

Inductive node : Type :=
| TextNode (data : string)
| OtherNode (data : string)
| ElementNode (tag : string) (attr : list (string * string)) (children : list node).

(** [Selection.Text()]: the data of the text nodes below, in order. *)
Fixpoint nodeText (n : node) : string :=
  match n with
  | TextNode data => data
  | OtherNode _ => ""
  | ElementNode _ _ children =>
      (fix texts (l : list node) : string :=
         match l with
         | [] => ""
         | k :: r => nodeText k ++ texts r
         end) children
  end.

Fixpoint Text (nodes : list node) : string :=
  match nodes with
  | [] => ""
  | n :: r => nodeText n ++ Text r
  end.

(** [Selection.Attr(name)]: the value and whether the attribute exists. *)
Fixpoint Attr (attr : list (string * string)) (name : string) : option string :=
  match attr with
  | [] => None
  | (k, v) :: r => if k =? name then Some v else Attr r name
  end.

Definition AttrOr (attr : list (string * string)) (name : string) : string :=
  match Attr attr name with Some v => v | None => "" end.

(** [html.EscapeString] *)
Fixpoint EscapeString (s : string) : string :=
  match s with
  | EmptyString => EmptyString
  | String a r =>
      (if Ascii.eqb a "&" then "&amp;"
       else if Ascii.eqb a "'" then "&#39;"
       else if Ascii.eqb a "<" then "&lt;"
       else if Ascii.eqb a ">" then "&gt;"
       else if Ascii.eqb a "034" then "&#34;"
       else String a "") ++ EscapeString r
  end.

(** A selector of the kind the renderer uses, a group of element names:
    the names, or [None] when the string is no selector, for which
    goquery compiles a matcher that matches nothing. *)
Definition compileMatcher (selector : string) : option (list string) :=
  let names := map TrimSpace (Split selector ",") in
  if existsb (fun n => n =? "") names then None else Some names.

Definition matches (m : option (list string)) (tag : string) : bool :=
  match m with
  | Some names => existsb (fun n => n =? tag) names
  | None => false
  end.

(** [Matcher.MatchAll]: the elements of the document that match, in
    document order. *)
Fixpoint matchAllNode (m : option (list string)) (n : node) : list node :=
  match n with
  | ElementNode tag attr children =>
      ((if matches m tag then [n] else []) ++ flat_map (matchAllNode m) children)%list
  | _ => []
  end.

Definition MatchAll (m : option (list string)) (doc : list node) : list node :=
  flat_map (matchAllNode m) doc.

(** [html.ParseFragment(html, context)] behind [ReplaceWithHtml] and
    [SetHtml], by the element name of the context. *)
Variable ParseFragment : string -> string -> list node.
(** [goquery.NewDocumentFromReader], [None] for an error. *)
Variable NewDocumentFromReader : string -> option (list node).
(** [io.ReadAll(quotedprintable.NewReader(s))], [None] for an error. *)
Variable quotedprintableReadAll : string -> option string.
(** [goldmark.New(WithUnsafe()).Convert], [None] for an error. *)
Variable goldmarkConvert : string -> option string.

(** [doc.Find(selector).Each(f)] for an [f] that leaves the element alone
    or replaces it: the elements are selected before any is rewritten,
    so the nodes that replace an element are not visited, and the
    elements inside a replaced one are rewritten in a subtree that no
    longer belongs to the document.  [f] gets the name of the parent,
    which is the context of [ReplaceWithHtml]. *)
Fixpoint eachNode (f : string -> string -> list (string * string) -> list node
                       -> option (list node))
         (parent : string) (n : node) : list node :=
  match n with
  | ElementNode tag attr children =>
      match f parent tag attr children with
      | Some replacement => replacement
      | None => [ElementNode tag attr (flat_map (eachNode f tag) children)]
      end
  | _ => [n]
  end.

Definition Each f (doc : list node) : list node := flat_map (eachNode f "") doc.

(** [doc.Find("style, script").Remove()] *)
Definition removeStyleScript : list node -> list node :=
  Each (fun _ tag _ _ =>
    if matches (compileMatcher "style, script") tag then Some [] else None).

(** [doc.Find(h).Each(... s.SetText(style.Render(s.Text())))]; [SetText]
    is [SetHtml] of the escaped text, parsed in the element. *)
Definition styleHeaders (h : string) (style : string -> string) : list node -> list node :=
  Each (fun _ tag attr children =>
    if matches (compileMatcher h) tag
    then Some [ElementNode tag attr
                 (ParseFragment tag (EscapeString (style (Text children))))]
    else None).

(** [doc.Find("p, div, h1, h2").Each(... s.After("\n\n"))].  The argument
    of [After] is a selector: the nodes that match it in the document are
    what is put behind the element.  (The copies go behind every selected
    element; that the originals move is left out, there are none here.) *)
Fixpoint afterNode (targets : option (list string)) (nodes : list node)
         (n : node) : list node :=
  match n with
  | ElementNode tag attr children =>
      (ElementNode tag attr (flat_map (afterNode targets nodes) children)
       :: (if matches targets tag then nodes else []))%list
  | _ => [n]
  end.

Definition spaceBlocks (doc : list node) : list node :=
  let nodes := MatchAll (compileMatcher (LF ++ LF)) doc in
  flat_map (afterNode (compileMatcher "p, div, h1, h2") nodes) doc.

(** [doc.Find("br").Each(... s.ReplaceWithHtml("\n"))] *)
Definition replaceBreaks : list node -> list node :=
  Each (fun parent tag _ _ =>
    if matches (compileMatcher "br") tag then Some (ParseFragment parent LF) else None).

(** The blockquote pass.  [before] holds the siblings already passed,
    the nearest first; [s.Prev()] is the nearest element among them. *)
Fixpoint prevElement (before : list node) : option node :=
  match before with
  | [] => None
  | ElementNode tag attr children :: _ => Some (ElementNode tag attr children)
  | _ :: r => prevElement r
  end.

Fixpoint removePrevElement (before : list node) : list node :=
  match before with
  | [] => []
  | ElementNode _ _ _ :: r => r
  | n :: r => n :: removePrevElement r
  end.

Definition quotePlaceholder (index : Z) : string :=
  LF ++ "[[MATCHA_QUOTE:" ++ itoa index ++ "]]" ++ LF.

Fixpoint quoteNode (n : node) (parent : string) (before : list node)
         (quoteData : list quote) : list node * list quote :=
  match n with
  | ElementNode tag attr children =>
      let visit :=
        fix visit (todo before : list node) (quoteData : list quote)
          : list node * list quote :=
          match todo with
          | [] => (before, quoteData)
          | m :: rest =>
              let '(before, quoteData) := quoteNode m tag before quoteData in
              visit rest before quoteData
          end in
      if matches (compileMatcher "blockquote") tag then
        let cite := AttrOr attr "cite" in
        let quoteText := TrimSpace (Text children) in
        let prevText :=
          match prevElement before with
          | Some prev => TrimSpace (nodeText prev)
          | None => ""
          end in
        let '(from, date, removePrev) :=
          match FindStringSubmatch onWroteRegex prevText with
          | Some matches_ =>
              (nth 2 matches_ "", parseDateForDisplay (nth 1 matches_ ""), true)
          | None =>
              match FindStringSubmatch onWroteRegex cite with
              | Some matches_ =>
                  (nth 2 matches_ "", parseDateForDisplay (nth 1 matches_ ""), false)
              | None => ("", "", false)
              end
          end in
        let before := if removePrev then removePrevElement before else before in
        let quoteData := (quoteData ++ [mkQuote from date quoteText])%list in
        let placeholder :=
          quotePlaceholder (Z.of_nat (List.length quoteData) - 1) in
        (* the blockquotes inside are still visited, in the detached subtree *)
        let '(_, quoteData) := visit children [] quoteData in
        (rev_append (ParseFragment parent placeholder) before, quoteData)
      else
        let '(children, quoteData) := visit children [] quoteData in
        (ElementNode tag attr (List.rev children) :: before, quoteData)
  | _ => (n :: before, quoteData)
  end.

Fixpoint quoteNodes (todo before : list node) (quoteData : list quote)
  : list node * list quote :=
  match todo with
  | [] => (List.rev before, quoteData)
  | m :: rest =>
      let '(before, quoteData) := quoteNode m "" before quoteData in
      quoteNodes rest before quoteData
  end.

Definition extractQuotes (doc : list node) : list node * list quote :=
  quoteNodes doc [] [].

(** [doc.Find("a").Each(...)]: what the function does to an element. *)
Definition anchorRule (parent tag : string) (attr : list (string * string))
           (children : list node) : option (list node) :=
  if matches (compileMatcher "a") tag then
    match Attr attr "href" with
    | Some href => Some (ParseFragment parent (hyperlink href (Text children)))
    | None => None
    end
  else None.

Definition rewriteAnchors : list node -> list node := Each anchorRule.

(** A Go map from content-id to payload: the entries, the latest first;
    a missing key reads as the empty string.  [None] is the nil map. *)
Fixpoint mapGet (m : list (string * string)) (key : string) : string :=
  match m with
  | [] => ""
  | (k, v) :: r => if k =? key then v else mapGet r key
  end.

(** The markup that replaces an [img] element with a [src]. *)
Definition imageMarkup (inline : option (list (string * string)))
           (disableImages : bool) (src alt : string) : string :=
  let alt := if alt =? "" then "Does not contain alt text" else alt in
  let rendered :=
    if negb disableImages && imageProtocolSupported then
      let payload :=
        if HasPrefix src "data:image/" then dataURIBase64 src
        else if HasPrefix src "cid:" then
          let cid := TrimPrefix src "cid:" in
          let cid := Trim cid "<>" in
          match inline with
          | Some m => mapGet m cid
          | None => ""
          end
        else if HasPrefix src "http://" || HasPrefix src "https://"
        then fetchRemoteBase64 src
        else "" in
      if nonEmpty payload then renderInlineImage payload else ""
    else "" in
  if nonEmpty rendered then LF ++ rendered ++ LF
  else if hyperlinkSupported then
    hyperlink src (LF ++ " [Click here to view image: " ++ alt ++ "] " ++ LF)
  else LF ++ " [Image: " ++ alt ++ ", " ++ src ++ "] " ++ LF.

(** [doc.Find("img").Each(...)]: what the function does to an element. *)
Definition imageRule (inline : option (list (string * string)))
           (disableImages : bool) (parent tag : string)
           (attr : list (string * string)) (children : list node)
  : option (list node) :=
  if matches (compileMatcher "img") tag then
    match Attr attr "src" with
    | Some src =>
        Some (ParseFragment parent
                (imageMarkup inline disableImages src (AttrOr attr "alt")))
    | None => None
    end
  else None.

Definition rewriteImages (inline : option (list (string * string)))
           (disableImages : bool) : list node -> list node :=
  Each (imageRule inline disableImages).

(** *** The pipeline *)

(** The pair [(string, error)] that the entry points return: the text with
    a nil error, or the error, of which the message is kept without the
    cause it wraps. *)
Inductive rendered : Type :=
| Ok (text : string)
| Error (message : string).

Definition decodeQuotedPrintable (s : string) : option string :=
  match quotedprintableReadAll s with
  | Some body => Some body
  | None => None
  end.

Definition markdownToHTML (md : string) : string :=
  match goldmarkConvert md with
  | Some html => html
  | None => md
  end.

(** The text that [processBody] extracts from the rewritten tree, with
    the quotes it has collected. *)
Definition transform (doc : list node) (inline : option (list (string * string)))
           (h1Style h2Style : string -> string) (disableImages : bool)
  : string * list quote :=
  let doc := removeStyleScript doc in
  let doc := styleHeaders "h1" h1Style doc in
  let doc := styleHeaders "h2" h2Style doc in
  let doc := spaceBlocks doc in
  let doc := replaceBreaks doc in
  let '(doc, quoteData) := extractQuotes doc in
  let doc := rewriteAnchors doc in
  let doc := rewriteImages inline disableImages doc in
  (Text doc, quoteData).

(** What follows [text := doc.Text()]. *)
Definition finalize (text : string) (quoteData : list quote) : string :=
  let text := ReplaceAllString newlinesRegex text (LF ++ LF) in
  let text := expandImageRowPlaceholders text in
  let text := resolveQuotePlaceholders quoteData text in
  styleQuotedReplies text.

Definition processBody (rawBody : string) (inline : option (list (string * string)))
           (h1Style h2Style bodyStyle : string -> string) (disableImages : bool)
  : rendered :=
  let decodedBody :=
    match decodeQuotedPrintable rawBody with
    | Some decoded => decoded
    | None => rawBody
    end in
  let htmlBody := markdownToHTML decodedBody in
  match NewDocumentFromReader htmlBody with
  | None => Error "could not parse email body"
  | Some doc =>
      let '(text, quoteData) := transform doc inline h1Style h2Style disableImages in
      Ok (bodyStyle (finalize text quoteData))
  end.

Definition inlineMap (inline : list InlineImage) : list (string * string) :=
  fold_left (fun m img =>
    let cid := TrimSpace (CID img) in
    let cid := TrimPrefix cid "<" in
    let cid := TrimSuffix cid ">" in
    let cid := TrimPrefix cid "cid:" in
    if (cid =? "") || (Base64 img =? "") then m
    else (cid, Base64 img) :: m) inline [].

Definition ProcessBodyWithInline (rawBody : string) (inline : list InlineImage)
           (h1Style h2Style bodyStyle : string -> string) (disableImages : bool)
  : rendered :=
  processBody rawBody (Some (inlineMap inline)) h1Style h2Style bodyStyle disableImages.

Definition ProcessBody (rawBody : string)
           (h1Style h2Style bodyStyle : string -> string) (disableImages : bool)
  : rendered :=
  processBody rawBody None h1Style h2Style bodyStyle disableImages.

(** *** The caller: the inline parts of a message (package tui) *)

Definition inlineImagesFromAttachments (atts : list fetcher.Attachment)
  : list InlineImage :=
  fold_left (fun imgs att =>
    if negb (fetcher.Inline att) || Nat.eqb (len (fetcher.Data att)) 0
       || (fetcher.ContentID att =? "")
    then imgs
    else (imgs ++ [mkInlineImage (fetcher.ContentID att)
                     (base64.EncodeToString (fetcher.Data att))])%list) atts [].

(** *** The framing of the Kitty protocol, as the specification words it

    The payload cut into pieces of [chunkSize] bytes, the last piece being
    what is left, and the pieces in their frames: the first carries the
    directives, each carries [m=1] when another follows and [m=0] when
    none does. *)
Fixpoint kittyFrames (first : bool) (pieces : list string) : string :=
  match pieces with
  | [] => ""
  | piece :: others =>
      ESC ++ "_G" ++ (if first then "f=100,a=T,q=2,C=1," else "") ++ "m="
      ++ (match others with [] => "0" | _ => "1" end) ++ ";" ++ piece
      ++ ESC ++ "\"
      ++ kittyFrames false others
  end.

Fixpoint pieces (fuel : nat) (s : string) : list string :=
  match fuel with
  | O => []
  | S fuel' =>
      match s with
      | EmptyString => []
      | _ => take chunkSize s :: pieces fuel' (drop chunkSize s)
      end
  end.

(** *** Vocabulary of the statements *)

(** The length of the longest prefix of [s] in a class. *)
Fixpoint runLength (cls : ascii -> bool) (s : string) : nat :=
  match s with
  | String a r => if cls a then S (runLength cls r) else 0
  | EmptyString => 0
  end.

(** All bytes of [s] are in a class. *)
Fixpoint allOf (cls : ascii -> bool) (s : string) : bool :=
  match s with
  | String a r => cls a && allOf cls r
  | EmptyString => true
  end.

(** [s] without its bytes of a class. *)
Fixpoint without (cls : ascii -> bool) (s : string) : string :=
  match s with
  | String a r => if cls a then without cls r else String a (without cls r)
  | EmptyString => EmptyString
  end.

(** A marker [open digits close], as both placeholder expressions have
    it. *)
Definition markerRegex (open close : string) : re :=
  seq [Lit open; Cap (Rep true 1 digit); Lit close].

(** Where a marker starts [s]: its digits and what follows it. *)
Definition markerAt (open close s : string) : option (string * string) :=
  if HasPrefix s open then
    let t := drop (len open) s in
    let n := runLength digit t in
    if Nat.leb 1 n && HasPrefix (drop n t) close
    then Some (take n t, drop (len close) (drop n t))
    else None
  else None.

(** What the closure of [expandImageRowPlaceholders] returns for a
    placeholder. *)
Definition rowsFor (d : string) : nat :=
  Z.to_nat match Sscanf_d d with
           | Some rows => if (rows <? 1)%Z then 1%Z else rows
           | None => 1%Z
           end.

(** The text of the quote scenario of the specification. *)
Definition replyChain : string :=
  "On Jan 2, 2006 at 3:04 PM, alice@x.com wrote:" ++ LF
  ++ "> line one" ++ LF ++ "> line two".

(** The tree of that text once goldmark has made a paragraph and a
    blockquote of it. *)
Definition replyChainDoc : list node :=
  [ElementNode "html" []
     [ElementNode "head" [] [];
      ElementNode "body" []
        [ElementNode "p" [] [TextNode "On Jan 2, 2006 at 3:04 PM, alice@x.com wrote:"];
         TextNode LF;
         ElementNode "blockquote" []
           [TextNode LF;
            ElementNode "p" [] [TextNode ("line one" ++ LF ++ "line two")];
            TextNode LF];
         TextNode LF]]].

(** Whether a line is a header "On DATE, X wrote:" for the line scan. *)
Definition isHeader (line : string) : bool :=
  match FindStringSubmatch onWroteLineRegex (TrimSpace line) with
  | Some _ => true
  | None => false
  end.

Definition isQuoted (line : string) : bool := HasPrefix (TrimSpace line) ">".

(** What the line scan may put into [result]: a quote box, or a line of
    the input that is no header. *)
Definition emitted (lines : list string) (x : string) : Prop :=
  (exists from date block, block <> [] /\ x = renderQuoteBox from date block)
  \/ (In x lines /\ isHeader x = false).

(** Without quoted lines the scan never opens a block. *)
Definition plain (lines : list string) (st : scan) : Prop :=
  quoteBlock st = [] /\
  Forall (fun x => In x lines /\ isHeader x = false) (result st).

(** *** Sample surroundings

    A terminal, a case mapping and a parser to run the renderer on the
    bodies of its tests: the environment that [clearAllTerminalEnv] of
    the tests leaves, the one of a Kitty terminal, the lowering of ASCII
    letters, and the trees that x/net/html builds for three bodies.  The
    bodies hold no quoted-printable escape, so whether the decoder returns
    them or fails, it is the raw body that goes on; they are HTML blocks,
    which goldmark passes through. *)

Definition plainTerminal (name : string) : string :=
  if name =? "TERM" then "xterm"
  else if name =? "TERM_PROGRAM" then "basic"
  else "".

Definition kittyTerminal (name : string) : string :=
  if name =? "TERM" then "xterm-kitty" else "".

Definition lowerByte (a : ascii) : ascii :=
  let n := nat_of_ascii a in
  if Nat.leb 65 n && Nat.leb n 90 then ascii_of_nat (n + 32) else a.

Fixpoint asciiLower (s : string) : string :=
  match s with
  | EmptyString => EmptyString
  | String a r => String (lowerByte a) (asciiLower r)
  end.

(** [html.UnescapeString] on the entities that [html.EscapeString] and
    [hyperlink] write. *)
Fixpoint unescape (fuel : nat) (s : string) : string :=
  match fuel with
  | O => s
  | S fuel' =>
      match s with
      | EmptyString => EmptyString
      | String a r =>
          if HasPrefix s "&lt;" then String "<" (unescape fuel' (drop 4 s))
          else if HasPrefix s "&gt;" then String ">" (unescape fuel' (drop 4 s))
          else if HasPrefix s "&amp;" then String "&" (unescape fuel' (drop 5 s))
          else if HasPrefix s "&#39;" then String "'" (unescape fuel' (drop 5 s))
          else if HasPrefix s "&#34;" then String "034" (unescape fuel' (drop 5 s))
          else String a (unescape fuel' r)
      end
  end.

(** The parse of a fragment that holds no tag: one text node. *)
Definition textFragment (context html : string) : list node :=
  if html =? "" then [] else [TextNode (unescape (len html) html)].

Definition page (body : list node) : list node :=
  [ElementNode "html" [] [ElementNode "head" [] []; ElementNode "body" [] body]].

Definition imageBody : string := "<img src=cid:img1>".
Definition imageDoc : list node :=
  page [ElementNode "img" [("src", "cid:img1")] []].

Definition linkBody : string := "<p><a href=http://example.com>Click here</a></p>".
Definition linkDoc : list node :=
  page [ElementNode "p" []
          [ElementNode "a" [("href", "http://example.com")] [TextNode "Click here"]]].

Definition headingBody : string := "<h1><a href=http://example.com>link</a></h1>".
Definition headingDoc : list node :=
  page [ElementNode "h1" []
          [ElementNode "a" [("href", "http://example.com")] [TextNode "link"]]].

Definition sampleDocument (html : string) : option (list node) :=
  if html =? imageBody then Some imageDoc
  else if html =? linkBody then Some linkDoc
  else if html =? headingBody then Some headingDoc
  else None.

Definition sampleWinsize (fd : Z) : option Winsize :=
  if (fd =? 2)%Z then Some (mkWinsize 50 1000) else None.

(** The bytes of a base64 payload, the bytes that the HTML tokenizer
    passes into a text node as they are (all but [<], [&], NUL and CR),
    and the bytes among these that no pass of the finalizer looks for
    (not a newline, not an opening bracket). *)
Definition base64Byte (a : ascii) : bool :=
  let n := nat_of_ascii a in
  Nat.leb 65 n && Nat.leb n 90 || Nat.leb 97 n && Nat.leb n 122
  || Nat.leb 48 n && Nat.leb n 57
  || Nat.eqb n 43 || Nat.eqb n 47 || Nat.eqb n 61.





(** ** Properties *)

(** *** The library models on examples *)

Example TrimSpace_ex :
  TrimSpace ("  " ++ LF ++ "> line one " ++ bytes [194; 160]) = "> line one".
Proof. vm_compute. reflexivity. Qed.

Example Split_ex :
  Split ("a" ++ LF ++ LF ++ "b" ++ LF) LF = ["a"; ""; "b"; ""].
Proof. reflexivity. Qed.

Example Trim_ex : Trim "<<img1>" "<>" = "img1".
Proof. reflexivity. Qed.

Example itoa_ex : itoa 42 = "42" /\ itoa 0 = "0" /\ itoa (-7) = "-7".
Proof. repeat split. Qed.

Example Sscanf_d_ex :
  Sscanf_d "007" = Some 7%Z /\ Sscanf_d "0" = Some 0%Z /\
  Sscanf_d "9223372036854775807" = Some maxInt /\
  Sscanf_d "9223372036854775808" = None.
Proof. repeat split. Qed.


(** *** Byte strings *)

Lemma append_assoc (a b c : string) : (a ++ b) ++ c = a ++ (b ++ c).
Proof. induction a as [|x a IH]; simpl; [reflexivity | now rewrite IH]. Qed.

Lemma append_nil_r (a : string) : a ++ "" = a.
Proof. induction a as [|x a IH]; simpl; [reflexivity | now rewrite IH]. Qed.

Lemma len_append (a b : string) : len (a ++ b) = len a + len b.
Proof. induction a as [|x a IH]; simpl; [reflexivity | now rewrite IH]. Qed.

Lemma HasPrefix_append (p r : string) : HasPrefix (p ++ r) p = true.
Proof.
  induction p as [|x p IH]; simpl; [reflexivity |].
  now rewrite Ascii.eqb_refl, IH.
Qed.

Lemma HasPrefix_inv (s p : string) :
  HasPrefix s p = true -> exists r, s = p ++ r.
Proof.
  revert s; induction p as [|x p IH]; intros s H.
  - now exists s.
  - destruct s as [|y s]; simpl in H; [discriminate |].
    apply andb_true_iff in H as [Hxy Hp].
    apply Ascii.eqb_eq in Hxy; subst y.
    destruct (IH _ Hp) as [r ->]. now exists r.
Qed.

Lemma HasPrefix_head (a b : ascii) (s p : string) :
  a <> b -> HasPrefix (String b s) (String a p) = false.
Proof.
  intros Hab; simpl. apply Ascii.eqb_neq in Hab. now rewrite Hab.
Qed.

Lemma drop_append (p r : string) : drop (len p) (p ++ r) = r.
Proof. induction p as [|x p IH]; simpl; [reflexivity | exact IH]. Qed.

Lemma take_append (p r : string) : take (len p) (p ++ r) = p.
Proof. induction p as [|x p IH]; simpl; [reflexivity | now rewrite IH]. Qed.

Lemma take_drop (n : nat) (s : string) : take n s ++ drop n s = s.
Proof.
  revert s; induction n as [|n IH]; intros s; [reflexivity |].
  destruct s as [|x s]; simpl; [reflexivity | now rewrite IH].
Qed.

Lemma take_all (n : nat) (s : string) : len s <= n -> take n s = s.
Proof.
  revert s; induction n as [|n IH]; intros [|x s] H; simpl in *;
    try reflexivity; try lia.
  rewrite IH; [reflexivity | lia].
Qed.

Lemma len_take (n : nat) (s : string) : len (take n s) = Nat.min n (len s).
Proof.
  revert s; induction n as [|n IH]; intros [|x s]; simpl; try reflexivity.
  now rewrite IH.
Qed.

Lemma len_drop (n : nat) (s : string) : len (drop n s) = len s - n.
Proof.
  revert s; induction n as [|n IH]; intros [|x s]; simpl; try reflexivity.
  apply IH.
Qed.

Lemma drop_drop (n m : nat) (s : string) : drop n (drop m s) = drop (m + n) s.
Proof.
  revert s; induction m as [|m IH]; intros s; [reflexivity |].
  destruct s as [|x s]; simpl; [now destruct n | apply IH].
Qed.

Lemma drop_nil (n : nat) (s : string) : len s <= n -> drop n s = "".
Proof.
  revert s; induction n as [|n IH]; intros [|x s] H; simpl in *;
    try reflexivity; try lia.
  apply IH; lia.
Qed.

Lemma Contains_HasPrefix (s sub : string) :
  HasPrefix s sub = true -> Contains s sub = true.
Proof. intros H; destruct s; simpl; now rewrite H. Qed.

Lemma Contains_intro (a sub b : string) : Contains (a ++ sub ++ b) sub = true.
Proof.
  induction a as [|x a IH]; simpl.
  - apply Contains_HasPrefix, HasPrefix_append.
  - rewrite IH. apply orb_true_r.
Qed.


Lemma Contains_prefix (sub b : string) : Contains (sub ++ b) sub = true.
Proof. exact (Contains_intro "" sub b). Qed.

(** *** Protocol dispatch *)

Lemma chunkSize_pos : 0 < chunkSize.
Proof. unfold chunkSize; lia. Qed.

Lemma kittyLoop_start (payload : string) :
  payload <> "" ->
  exists r, kittyLoop (len payload) payload 0
            = ESC ++ "_Gf=100,a=T,q=2,C=1,m=" ++ r.
Proof.
  intros H. destruct payload as [|a t]; [contradiction |].
  cbn [len kittyLoop]. cbn [Nat.ltb Nat.leb Nat.eqb].
  eexists. rewrite !append_assoc. reflexivity.
Qed.

Lemma kittyInlineImage_start (payload : string) :
  payload <> "" ->
  exists r, kittyInlineImage payload = ESC ++ "_Gf=100,a=T,q=2,C=1,m=" ++ r.
Proof.
  intros H. unfold kittyInlineImage.
  destruct (String.eqb_spec payload ""); [contradiction |].
  destruct (kittyLoop_start payload H) as [r ->].
  eexists. rewrite !append_assoc. reflexivity.
Qed.

Lemma iterm2InlineImage_start (payload : string) :
  payload <> "" ->
  exists r, iterm2InlineImage payload = ESC ++ "]1337;File=inline=1:" ++ r.
Proof.
  intros H. unfold iterm2InlineImage.
  destruct (String.eqb_spec payload ""); [contradiction |].
  eexists. rewrite !append_assoc. reflexivity.
Qed.

(** C5.  With a payload to show, the dispatch takes the Kitty encoder as
    soon as one detector of the Kitty family (kitty, ghostty, wezterm,
    wayst, konsole) answers, whatever iterm2 and warp answer; it takes the
    iTerm2 encoder exactly when none of that family answers and iterm2 or
    warp does; and it returns the empty string when no detector answers. *)
Theorem renderInlineImage_dispatch (payload : string) :
  payload <> "" ->
  let kittyFamily :=
    kittySupported || ghosttySupported || weztermSupported
    || waystSupported || konsoleSupported in
  let iterm2Family := iterm2Supported || warpSupported in
  (kittyFamily = true ->
     renderInlineImage payload = kittyInlineImage payload) /\
  (renderInlineImage payload = iterm2InlineImage payload
     <-> kittyFamily = false /\ iterm2Family = true) /\
  (kittyFamily = false -> iterm2Family = false ->
     renderInlineImage payload = "").
Proof.
  intros H kittyFamily iterm2Family.
  destruct (kittyInlineImage_start payload H) as [rk Hk].
  destruct (iterm2InlineImage_start payload H) as [ri Hi].
  unfold renderInlineImage.
  destruct (String.eqb_spec payload ""); [contradiction |].
  fold kittyFamily iterm2Family.
  destruct kittyFamily, iterm2Family; repeat split; intros;
    try reflexivity; try discriminate; try (destruct H0; discriminate).
  all: exfalso; rewrite ?Hk, ?Hi in H0; discriminate H0.
Qed.

(** *** Kitty chunks *)

Lemma Join_cons (x : string) (l : list string) (sep : string) :
  l <> [] -> Join (x :: l) sep = x ++ sep ++ Join l sep.
Proof. destruct l; [contradiction | reflexivity]. Qed.

Lemma drop_empty_len (n : nat) (s : string) : drop n s = "" -> len s <= n.
Proof. intros H. pose proof (len_drop n s) as L. rewrite H in L. simpl in L. lia. Qed.

Lemma len_zero (s : string) : len s = 0 -> s = "".
Proof. destruct s; [reflexivity | discriminate]. Qed.

Lemma pieces_nil (fuel : nat) : pieces fuel "" = [].
Proof. destruct fuel; reflexivity. Qed.

Lemma pieces_shape (fuel : nat) : forall s,
  s <> "" -> len s <= fuel ->
  exists chunks final,
    pieces fuel s = (chunks ++ [final])%list /\
    Join (chunks ++ [final]) "" = s /\
    (forall c, In c chunks -> len c = chunkSize) /\
    1 <= len final <= chunkSize.
Proof.
  induction fuel as [|fuel IH]; intros s Hs Hfuel.
  - exfalso; apply Hs, len_zero; lia.
  - pose proof chunkSize_pos as Hpos.
    assert (Hlen : 1 <= len s) by (destruct s; [contradiction | simpl; lia]).
    cbn [pieces]. destruct s as [|a t] eqn:Es; [contradiction |]. rewrite <- Es in *.
    destruct (string_dec (drop chunkSize s) "") as [Hd | Hd].
    + rewrite Hd, pieces_nil. apply drop_empty_len in Hd.
      exists [], s. rewrite take_all by lia. repeat split; try lia.
      intros c [].
    + assert (Hlong : chunkSize < len s).
      { destruct (Nat.lt_ge_cases chunkSize (len s)); [assumption |].
        exfalso; apply Hd, drop_nil; lia. }
      destruct (IH (drop chunkSize s) Hd) as (chunks & final & Hp & Hj & Hc & Hf).
      { rewrite len_drop. lia. }
      exists (take chunkSize s :: chunks), final. rewrite Hp. repeat split; try lia.
      * cbn [app]. rewrite Join_cons by (destruct chunks; discriminate).
        rewrite Hj. cbn [append]. apply take_drop.
      * intros c [<- | Hin]; [rewrite len_take; lia | now apply Hc].
Qed.

Lemma slice_chunk (payload : string) (offset : nat) :
  offset < len payload ->
  slice payload offset
    (if Nat.ltb (len payload) (offset + chunkSize)
     then len payload else offset + chunkSize)
  = take chunkSize (drop offset payload).
Proof.
  intros Hlt. unfold slice.
  destruct (Nat.ltb_spec (len payload) (offset + chunkSize)).
  - rewrite !take_all; try reflexivity; rewrite len_drop; lia.
  - f_equal. lia.
Qed.

Lemma kittyLoop_frames (fuel : nat) : forall payload offset,
  len payload - offset <= fuel ->
  kittyLoop fuel payload offset
  = kittyFrames (Nat.eqb offset 0) (pieces fuel (drop offset payload)).
Proof.
  pose proof chunkSize_pos as Hpos.
  induction fuel as [|fuel IH]; intros payload offset Hfuel; [reflexivity |].
  cbn [kittyLoop pieces].
  destruct (Nat.ltb_spec offset (len payload)) as [Hlt | Hge].
  - rewrite slice_chunk by assumption.
    rewrite IH by lia.
    assert (Hnz : Nat.eqb (offset + chunkSize) 0 = false)
      by (apply Nat.eqb_neq; lia).
    rewrite Hnz, <- drop_drop.
    destruct (drop offset payload) as [|a t] eqn:Ed.
    { apply drop_empty_len in Ed. lia. }
    rewrite <- Ed. cbn [kittyFrames].
    assert (Hmore :
      (if Nat.ltb (if Nat.ltb (len payload) (offset + chunkSize)
                   then len payload else offset + chunkSize) (len payload)
       then "1" else "0")
      = match pieces fuel (drop chunkSize (drop offset payload)) with
        | [] => "0" | _ => "1" end).
    { destruct (Nat.ltb_spec (len payload) (offset + chunkSize)).
      - rewrite Nat.ltb_irrefl.
        rewrite (drop_nil chunkSize) by (rewrite len_drop; lia).
        now rewrite pieces_nil.
      - destruct (Nat.ltb_spec (offset + chunkSize) (len payload)).
        + destruct fuel as [|fuel']; [lia |].
          cbn [pieces].
          destruct (drop chunkSize (drop offset payload)) eqn:E2; [| reflexivity].
          apply drop_empty_len in E2. rewrite len_drop in E2. lia.
        + rewrite (drop_nil chunkSize) by (rewrite len_drop; lia).
          now rewrite pieces_nil. }
    rewrite Hmore.
    destruct (Nat.eqb offset 0); rewrite !append_assoc; reflexivity.
  - rewrite (drop_nil offset) by lia. reflexivity.
Qed.

(** C3.  The Kitty encoder cuts a payload that is not empty into pieces of
    4096 bytes, the last piece holding the 1 to 4096 bytes that are left;
    put together the pieces are the payload.  The first piece goes out
    with the directives f=100,a=T,q=2,C=1, every piece with m=1 when
    another follows and m=0 when it is the last, each between ESC _G and
    ESC \; the output ends with one image-row placeholder. *)
Theorem kittyInlineImage_chunks (payload : string) :
  payload <> "" ->
  exists (chunks : list string) (final : string),
    Join (chunks ++ [final]) "" = payload /\
    (forall c, In c chunks -> len c = 4096) /\
    1 <= len final <= 4096 /\
    kittyInlineImage payload
    = kittyFrames true (chunks ++ [final])
      ++ LF ++ "[[MATCHA_IMG_ROWS:" ++ itoa (imageRows payload) ++ "]]" ++ LF.
Proof.
  intros H.
  destruct (pieces_shape (len payload) payload H (Nat.le_refl _))
    as (chunks & final & Hp & Hj & Hc & Hf).
  exists chunks, final. repeat split; try assumption; try apply Hf.
  unfold kittyInlineImage.
  destruct (String.eqb_spec payload ""); [contradiction |].
  rewrite kittyLoop_frames by lia.
  cbn [Nat.eqb drop]. rewrite Hp.
  unfold imageRowPlaceholder, imageRowPlaceholderPrefix, imageRowPlaceholderSuffix.
  rewrite !append_assoc. reflexivity.
Qed.

(** *** Rows of an image *)

Lemma wrap_small (x : Z) : (- 2 ^ 63 <= x <= maxInt)%Z -> wrap x = x.
Proof.
  unfold wrap, maxInt. intros H.
  rewrite Z.mod_small by lia. lia.
Qed.

Lemma getCellHeightFromFd_nonneg (fd : Z) : (0 <= getCellHeightFromFd fd)%Z.
Proof.
  unfold getCellHeightFromFd.
  destruct (IoctlGetWinsize fd) as [ws|]; [| lia].
  destruct ((0 <? Row ws)%Z && (0 <? Ypixel ws)%Z); [| lia].
  destruct (Z.ltb_spec 0 (Z.quot (Ypixel ws) (Row ws))); lia.
Qed.

Lemma getTerminalCellSize_pos : (0 < getTerminalCellSize)%Z.
Proof.
  unfold getTerminalCellSize, firstCellHeight, defaultCellHeight.
  repeat match goal with
         | |- context [(0 <? ?x)%Z] => destruct (Z.ltb_spec 0 x); try lia
         end.
  destruct openTty as [tty|]; [| lia].
  destruct (Z.ltb_spec 0 (getCellHeightFromFd tty)); lia.
Qed.

Lemma rows_ceiling (h cell : Z) :
  (0 <= h)%Z -> (0 < cell)%Z -> (h + cell - 1 <= maxInt)%Z ->
  let rows := Z.quot (wrap (h + cell - 1)) cell in
  let rows := if (rows <? 1)%Z then 1%Z else rows in
  (1 <= rows /\ h <= rows * cell /\ (1 < rows -> (rows - 1) * cell < h))%Z.
Proof.
  intros Hh Hc Hfit. cbv zeta.
  rewrite wrap_small by (unfold maxInt in *; lia).
  rewrite Z.quot_div_nonneg by lia.
  pose proof (Z.div_mod (h + cell - 1) cell ltac:(lia)) as Hdm.
  pose proof (Z.mod_pos_bound (h + cell - 1) cell Hc) as Hmod.
  set (r := ((h + cell - 1) / cell)%Z) in *.
  destruct (Z.ltb_spec r 1); nia.
Qed.

(** C6.  The cell height is the answer of the first of stdout, stdin,
    stderr and /dev/tty, in that order, that reports one, and 18 when none
    does.  For a payload that decodes to a picture of height [h], the
    count of rows is the ceiling of [h] over the cell height and at least
    1: the least [rows >= 1] with [h <= rows * cell].  For a payload that
    does not decode the count is 1.  Either way both encoders write the
    count into the placeholder that ends their output. *)
Theorem image_row_count (payload : string) :
  let query := getCellHeightFromFd in
  let cell := getTerminalCellSize in
  ((0 < query stdout -> cell = query stdout) /\
   (query stdout = 0 -> 0 < query stdin -> cell = query stdin) /\
   (query stdout = 0 -> query stdin = 0 -> 0 < query stderr ->
      cell = query stderr) /\
   (query stdout = 0 -> query stdin = 0 -> query stderr = 0 ->
      forall tty, openTty = Some tty -> 0 < query tty -> cell = query tty) /\
   (query stdout = 0 -> query stdin = 0 -> query stderr = 0 ->
      (openTty = None \/ exists tty, openTty = Some tty /\ query tty = 0) ->
      cell = 18))%Z /\
  (forall data h,
      base64Decode payload = Some data -> imageDecodeHeight data = Some h ->
      (0 <= h)%Z -> (h + cell - 1 <= maxInt)%Z ->
      let rows := imageRows payload in
      (1 <= rows /\ h <= rows * cell /\ (1 < rows -> (rows - 1) * cell < h))%Z) /\
  ((base64Decode payload = None \/
    exists data, base64Decode payload = Some data /\ imageDecodeHeight data = None) ->
     imageRows payload = 1%Z) /\
  (payload <> "" ->
     (exists frames, frames <> "" /\
        kittyInlineImage payload
        = frames ++ LF ++ "[[MATCHA_IMG_ROWS:" ++ itoa (imageRows payload) ++ "]]" ++ LF) /\
     iterm2InlineImage payload
     = ESC ++ "]1337;File=inline=1:" ++ payload ++ BEL ++ LF
       ++ "[[MATCHA_IMG_ROWS:" ++ itoa (imageRows payload) ++ "]]" ++ LF).
Proof.
  intros query cell. split; [| split; [| split]].
  - subst query cell.
    unfold getTerminalCellSize, firstCellHeight, defaultCellHeight.
    repeat split; intros.
    + destruct (Z.ltb_spec 0 (getCellHeightFromFd stdout)); [reflexivity | lia].
    + rewrite H. cbn [Z.ltb Z.compare].
      destruct (Z.ltb_spec 0 (getCellHeightFromFd stdin)); [reflexivity | lia].
    + rewrite H, H0. cbn [Z.ltb Z.compare].
      destruct (Z.ltb_spec 0 (getCellHeightFromFd stderr)); [reflexivity | lia].
    + rewrite H, H0, H1, H2. cbn [Z.ltb Z.compare].
      destruct (Z.ltb_spec 0 (getCellHeightFromFd tty)); [reflexivity | lia].
    + rewrite H, H0, H1. cbn [Z.ltb Z.compare].
      destruct H2 as [-> | (tty & -> & ->)]; reflexivity.
  - intros data h Hd Hh Hpos Hfit. unfold imageRows. rewrite Hd, Hh.
    apply rows_ceiling; try assumption. apply getTerminalCellSize_pos.
  - intros [Hd | (data & Hd & Hh)]; unfold imageRows; rewrite Hd;
      [| rewrite Hh]; reflexivity.
  - intros Hne. split.
    + unfold kittyInlineImage.
      destruct (String.eqb_spec payload ""); [contradiction |].
      exists (kittyLoop (len payload) payload 0). split.
      * destruct (kittyLoop_start payload Hne) as [r ->]. discriminate.
      * unfold imageRowPlaceholder, imageRowPlaceholderPrefix,
          imageRowPlaceholderSuffix. rewrite !append_assoc. reflexivity.
    + unfold iterm2InlineImage.
      destruct (String.eqb_spec payload ""); [contradiction |].
      unfold imageRowPlaceholder, imageRowPlaceholderPrefix,
        imageRowPlaceholderSuffix. rewrite !append_assoc. reflexivity.
Qed.

(** *** The regexp model on the placeholder expressions *)

Lemma spans_runLength (cls : ascii -> bool) (s : string) :
  spans cls s = List.seq 0 (S (runLength cls s)).
Proof.
  induction s as [|a r IH]; [reflexivity |].
  cbn [spans runLength]. destruct (cls a); [| reflexivity].
  rewrite IH, seq_shift. reflexivity.
Qed.

Lemma filter_leb_seq (n : nat) :
  filter (fun k => Nat.leb 1 k) (List.seq 0 (S n)) = List.seq 1 n.
Proof.
  cbn [List.seq filter Nat.leb].
  apply forallb_filter_id, forallb_forall.
  intros k Hk. apply in_seq in Hk. destruct k; [lia | reflexivity].
Qed.

Lemma drop_in_run (cls : ascii -> bool) (s : string) (k : nat) :
  k < runLength cls s ->
  exists a t, drop k s = String a t /\ cls a = true.
Proof.
  revert s; induction k as [|k IH]; intros [|a r] H; cbn [runLength] in H;
    try lia.
  - destruct (cls a) eqn:E; [| lia]. now exists a, r.
  - destruct (cls a) eqn:E; [| lia]. apply IH. lia.
Qed.

Lemma flat_map_nil {A B : Type} (f : A -> list B) (l : list A) :
  (forall x, In x l -> f x = []) -> flat_map f l = [].
Proof.
  induction l as [|x l IH]; intros H; [reflexivity |].
  cbn [flat_map]. rewrite (H x (or_introl eq_refl)), IH; [reflexivity |].
  intros y Hy. apply H. now right.
Qed.

Lemma flat_map_map {A B C : Type} (f : B -> list C) (g : A -> B) (l : list A) :
  flat_map f (map g l) = flat_map (fun x => f (g x)) l.
Proof. induction l as [|x l IH]; [reflexivity |]. cbn. now rewrite IH. Qed.

Lemma run_Cat (r1 r2 : re) (p : place) :
  run (Cat r1 r2) p = flat_map (run r2) (run r1 p).
Proof. reflexivity. Qed.

Lemma run_Lit (l : string) (p : place) :
  run (Lit l) p = if HasPrefix (rest p) l then [advance p (len l)] else [].
Proof. reflexivity. Qed.

Lemma run_digits_close (cls : ascii -> bool) (c : ascii) (close : string) (p : place) :
  cls c = false ->
  flat_map (run (Lit (String c close))) (run (Cap (Rep true 1 cls)) p)
  = let n := runLength cls (rest p) in
    if Nat.leb 1 n && HasPrefix (drop n (rest p)) (String c close)
    then [mkPlace (pos p + n + len (String c close))
                  (drop (len (String c close)) (drop n (rest p)))
                  (caps p ++ [take n (rest p)])]
    else [].
Proof.
  intros Hc. cbv zeta. cbn [run].
  rewrite spans_runLength, filter_leb_seq, !flat_map_map.
  set (n := runLength cls (rest p)).
  set (F := fun k => _).
  assert (Hlow : forall k, k < n -> F k = []).
  { intros k Hk. subst F n. cbn beta.
    destruct (drop_in_run cls (rest p) k Hk) as (a & t & Hd & Ha).
    cbn [run advance rest]. rewrite Hd.
    rewrite HasPrefix_head; [reflexivity |]. intros ->. congruence. }
  destruct n as [|m] eqn:En.
  - reflexivity.
  - rewrite seq_S, rev_app_distr. cbn [List.rev app flat_map].
    rewrite (flat_map_nil F).
    + rewrite app_nil_r. subst F. cbn beta.
      cbn [run advance rest pos caps Nat.leb andb].
      replace (pos p + (1 + m) - pos p) with (S m) by lia.
      replace (1 + m) with (S m) by lia.
      destruct (HasPrefix (drop (S m) (rest p)) (String c close));
        [| reflexivity].
      cbn [advance rest pos caps]. do 2 f_equal.
    + intros k Hk. apply in_rev, in_seq in Hk. apply Hlow. lia.
Qed.

Lemma matchAt_marker (open : string) (c : ascii) (close : string)
      (i : nat) (s : string) :
  digit c = false ->
  matchAt (markerRegex open (String c close)) i s
  = match markerAt open (String c close) s with
    | Some (d, _) => Some (len open + len d + len (String c close), [d])
    | None => None
    end.
Proof.
  intros Hc. unfold matchAt, markerRegex, markerAt.
  cbn [seq]. rewrite run_Cat, run_Lit. cbn [rest].
  destruct (HasPrefix s open); [| reflexivity].
  cbn [flat_map]. rewrite app_nil_r, run_Cat.
  rewrite run_digits_close by assumption.
  cbv zeta. cbn [advance rest pos caps].
  set (t := drop (len open) s). set (n := runLength digit t).
  destruct (Nat.leb 1 n && HasPrefix (drop n t) (String c close)) eqn:E;
    [| reflexivity].
  cbn [pos caps app].
  assert (Hn : n <= len t).
  { clear. subst n. induction t as [|a r IH]; cbn; [lia |].
    destruct (digit a); lia. }
  rewrite len_take. do 2 f_equal. lia.
Qed.

Lemma replaceFrom_skip (r : re) (f : string -> string) (k : nat) :
  forall s i, replaceFrom r f i k s = replaceFrom r f (i + k) 0 (drop k s).
Proof.
  induction k as [|k IH]; intros s i.
  - now rewrite Nat.add_0_r.
  - destruct s as [|a t]; [reflexivity |].
    cbn [replaceFrom drop]. rewrite IH. f_equal. lia.
Qed.

Lemma replaceFrom_index (r : re) (f : string -> string) :
  (forall i j s, matchAt r i s = matchAt r j s) ->
  forall s i j k, replaceFrom r f i k s = replaceFrom r f j k s.
Proof.
  intros Hr. induction s as [|a t IH]; intros i j k; [reflexivity |].
  cbn [replaceFrom]. destruct k as [|k]; [| apply IH].
  rewrite (Hr i j). destruct (matchAt r j (String a t)) as [[[|n] g]|].
  - f_equal. apply IH.
  - f_equal. apply IH.
  - f_equal. apply IH.
Qed.

Lemma runLength_all (cls : ascii -> bool) (d : string) (c : ascii) (t : string) :
  allOf cls d = true -> cls c = false ->
  runLength cls (d ++ String c t) = len d.
Proof.
  intros Hd Hc. induction d as [|a d IH]; cbn in *.
  - now rewrite Hc.
  - apply andb_true_iff in Hd as [Ha Hd]. rewrite Ha. now rewrite IH.
Qed.

Lemma runLength_le (cls : ascii -> bool) (s : string) : runLength cls s <= len s.
Proof. induction s as [|a r IH]; cbn; [lia |]. destruct (cls a); lia. Qed.

Lemma allOf_take_run (cls : ascii -> bool) (s : string) :
  allOf cls (take (runLength cls s) s) = true.
Proof.
  induction s as [|a r IH]; cbn; [reflexivity |].
  destruct (cls a) eqn:E; cbn; [now rewrite E | reflexivity].
Qed.

Lemma markerAt_intro (open : string) (c : ascii) (close d rest_ : string) :
  digit c = false -> d <> "" -> allOf digit d = true ->
  markerAt open (String c close) (open ++ d ++ String c close ++ rest_)
  = Some (d, rest_).
Proof.
  intros Hc Hne Hd. unfold markerAt.
  rewrite HasPrefix_append, drop_append.
  change (d ++ String c close ++ rest_) with (d ++ String c (close ++ rest_)).
  rewrite runLength_all by assumption.
  rewrite drop_append, take_append.
  change (String c (close ++ rest_)) with (String c close ++ rest_).
  rewrite HasPrefix_append, drop_append.
  destruct d; [contradiction | reflexivity].
Qed.

Lemma markerAt_inv (open close s d rest_ : string) :
  markerAt open close s = Some (d, rest_) ->
  s = open ++ d ++ close ++ rest_ /\ d <> "" /\ allOf digit d = true.
Proof.
  unfold markerAt. destruct (HasPrefix s open) eqn:Ho; [| discriminate].
  apply HasPrefix_inv in Ho as [t ->]. rewrite drop_append.
  destruct (Nat.leb 1 (runLength digit t) && HasPrefix (drop (runLength digit t) t) close)
    eqn:E; [| discriminate].
  apply andb_true_iff in E as [E1 E2]. apply Nat.leb_le in E1.
  intros [= <- <-]. apply HasPrefix_inv in E2 as [u Hu].
  repeat split.
  - rewrite Hu, drop_append. f_equal.
    rewrite <- Hu. symmetry. apply take_drop.
  - intros E. pose proof (runLength_le digit t).
    apply (f_equal len) in E. rewrite len_take in E. cbn in E. lia.
  - apply allOf_take_run.
Qed.

Lemma replaceFrom_match (r : re) (f : string -> string) (i n : nat)
      (g : list string) (s : string) :
  s <> "" -> matchAt r i s = Some (S n, g) ->
  replaceFrom r f i 0 s
  = f (take (S n) s) ++ replaceFrom r f (i + S n) 0 (drop (S n) s).
Proof.
  intros Hs Hm. destruct s as [|a t]; [contradiction |].
  cbn [replaceFrom]. rewrite Hm. f_equal.
  rewrite replaceFrom_skip. cbn [drop]. f_equal. lia.
Qed.

(** How the replacement over a marker expression unfolds. *)
Lemma replace_marker (open : string) (c : ascii) (close : string)
      (f : string -> string) (s d rest_ : string) :
  digit c = false ->
  markerAt open (String c close) s = Some (d, rest_) ->
  ReplaceAllStringFunc (markerRegex open (String c close)) s f
  = f (open ++ d ++ String c close)
    ++ ReplaceAllStringFunc (markerRegex open (String c close)) rest_ f.
Proof.
  intros Hc Hm. unfold ReplaceAllStringFunc.
  pose proof (markerAt_inv _ _ _ _ _ Hm) as (Hs & _ & _).
  assert (Hlen : len open + len d + len (String c close)
                 = S (len open + len d + len close)) by (cbn; lia).
  assert (Hlen' : S (len open + len d + len close)
                  = len (open ++ d ++ String c close))
    by (rewrite !len_append; cbn; lia).
  rewrite (replaceFrom_match _ _ 0 (len open + len d + len close) [d]).
  - rewrite Hlen', Hs.
    replace (open ++ d ++ String c close ++ rest_)
      with ((open ++ d ++ String c close) ++ rest_)
      by (now rewrite !append_assoc).
    rewrite take_append, drop_append. f_equal.
    apply replaceFrom_index.
    intros. rewrite !matchAt_marker by assumption. reflexivity.
  - rewrite Hs. destruct open, d; discriminate.
  - rewrite matchAt_marker, Hm, Hlen by assumption. reflexivity.
Qed.

Lemma replace_no_marker (open : string) (c : ascii) (close : string)
      (f : string -> string) (a : ascii) (t : string) :
  digit c = false ->
  markerAt open (String c close) (String a t) = None ->
  ReplaceAllStringFunc (markerRegex open (String c close)) (String a t) f
  = String a (ReplaceAllStringFunc (markerRegex open (String c close)) t f).
Proof.
  intros Hc Hm. unfold ReplaceAllStringFunc. cbn [replaceFrom].
  rewrite matchAt_marker, Hm by assumption. f_equal.
  apply replaceFrom_index.
  intros. rewrite !matchAt_marker by assumption. reflexivity.
Qed.

(** *** Image-row placeholders *)

Lemma rev_onto_spec (s acc : string) : rev_onto s acc = rev s ++ acc.
Proof.
  unfold rev. revert acc; induction s as [|a s IH]; intros acc; [reflexivity |].
  cbn [rev_onto]. rewrite IH, (IH (String a "")), append_assoc. reflexivity.
Qed.

Lemma rev_append (a b : string) : rev (a ++ b) = rev b ++ rev a.
Proof.
  induction a as [|x a IH]; cbn [append].
  - now rewrite append_nil_r.
  - unfold rev in *. cbn [rev_onto].
    rewrite !(rev_onto_spec _ (String x "")). fold (rev (a ++ b)) (rev a).
    unfold rev. rewrite IH, append_assoc. reflexivity.
Qed.

Lemma TrimPrefix_append (p r : string) : TrimPrefix (p ++ r) p = r.
Proof. unfold TrimPrefix. now rewrite HasPrefix_append, drop_append. Qed.

Lemma TrimSuffix_append (a b : string) : TrimSuffix (a ++ b) b = a.
Proof.
  unfold TrimSuffix, HasSuffix. rewrite rev_append, HasPrefix_append.
  rewrite len_append. replace (len a + len b - len b) with (len a) by lia.
  apply take_append.
Qed.

Lemma string_of_uint_digits (u : Decimal.uint) :
  allOf digit (NilEmpty.string_of_uint u) = true.
Proof. induction u; cbn; auto. Qed.

Lemma itoa_number (N : Z) :
  (0 <= N)%Z -> itoa N <> "" /\ allOf digit (itoa N) = true.
Proof.
  intros H. unfold itoa. destruct N as [|q|q]; [split; [discriminate | reflexivity] | | lia].
  cbn [Z.to_int NilZero.string_of_int]. unfold NilZero.string_of_uint.
  pose proof (DecimalPos.Unsigned.to_uint_nonnil q) as Hnn.
  destruct (Pos.to_uint q) eqn:E; try contradiction;
    (split; [discriminate | rewrite <- E; apply string_of_uint_digits ]).
Qed.

Lemma Sscanf_d_itoa (N : Z) :
  (0 <= N <= maxInt)%Z -> Sscanf_d (itoa N) = Some N.
Proof.
  intros [H0 H1]. unfold Sscanf_d, itoa.
  destruct N as [|q|q]; [reflexivity | | lia].
  cbn [Z.to_int NilZero.string_of_int].
  rewrite NilZero.usu by apply DecimalPos.Unsigned.to_uint_nonnil.
  unfold N.of_uint. rewrite DecimalPos.Unsigned.of_to. cbn [Z.of_N].
  destruct (Z.leb_spec (Z.pos q) maxInt); [reflexivity | lia].
Qed.

Lemma digit_close : digit "]"%char = false.
Proof. reflexivity. Qed.

Lemma rowsFor_pos (d : string) : 1 <= rowsFor d.
Proof.
  unfold rowsFor. destruct (Sscanf_d d) as [v|]; [| cbn; lia].
  destruct (Z.ltb_spec v 1); [cbn |]; lia.
Qed.

Lemma expand_placeholder (d rest_ : string) :
  d <> "" -> allOf digit d = true ->
  expandImageRowPlaceholders (("[[MATCHA_IMG_ROWS:" ++ d ++ "]]") ++ rest_)
  = Repeat LF (rowsFor d) ++ expandImageRowPlaceholders rest_.
Proof.
  intros Hne Hd. unfold expandImageRowPlaceholders.
  change imageRowRegex with (markerRegex imageRowPlaceholderPrefix "]]").
  rewrite (replace_marker _ _ _ _ _ d rest_ digit_close).
  - f_equal. unfold imageRowPlaceholderSuffix.
    rewrite TrimPrefix_append, TrimSuffix_append. reflexivity.
  - rewrite append_assoc, append_assoc. apply markerAt_intro; auto.
Qed.

Lemma expand_other (a : ascii) (t : string) :
  markerAt imageRowPlaceholderPrefix "]]" (String a t) = None ->
  expandImageRowPlaceholders (String a t)
  = String a (expandImageRowPlaceholders t).
Proof.
  intros H. unfold expandImageRowPlaceholders.
  change imageRowRegex with (markerRegex imageRowPlaceholderPrefix "]]").
  now rewrite replace_no_marker by (auto using digit_close).
Qed.

Lemma Repeat_LF_split (n : nat) (x before m after : string) (c : ascii) :
  c <> "010"%char ->
  Repeat LF n ++ x = before ++ String c m ++ after ->
  exists before', before = Repeat LF n ++ before' /\ x = before' ++ String c m ++ after.
Proof.
  intros Hc. revert before. induction n as [|n IH]; intros before H.
  - now exists before.
  - cbn in H. destruct before as [|y before]; cbn in H.
    + injection H as H _. congruence.
    + injection H as <- H. destruct (IH _ H) as (b' & -> & Hx).
      now exists b'.
Qed.

Lemma expand_prefix_inv (w : string) : forall text after,
  allOf (fun a => negb (newline a)) w = true ->
  expandImageRowPlaceholders text = w ++ after ->
  exists after', text = w ++ after'.
Proof.
  induction w as [|c w IH]; intros text after Hw H.
  - now exists text.
  - cbn in Hw. apply andb_true_iff in Hw as [Hc Hw].
    destruct text as [|a t]; [discriminate |].
    destruct (markerAt imageRowPlaceholderPrefix "]]" (String a t))
      as [[d rest_]|] eqn:Em.
    + apply markerAt_inv in Em as (Hs & Hne & Hd).
      assert (Hs' : String a t = ("[[MATCHA_IMG_ROWS:" ++ d ++ "]]") ++ rest_).
      { rewrite Hs. unfold imageRowPlaceholderPrefix.
        now rewrite !append_assoc. }
      rewrite Hs', expand_placeholder in H by assumption.
      pose proof (rowsFor_pos d) as Hpos.
      destruct (rowsFor d) as [|n]; [lia |]. cbn in H.
      injection H as H _. subst c. discriminate.
    + rewrite expand_other in H by assumption. cbn in H.
      injection H as <- H. destruct (IH _ _ Hw H) as [after' ->].
      now exists after'.
Qed.

Lemma allOf_append (cls : ascii -> bool) (a b : string) :
  allOf cls (a ++ b) = allOf cls a && allOf cls b.
Proof.
  induction a as [|x a IH]; cbn; [reflexivity |].
  now rewrite IH, andb_assoc.
Qed.

Lemma allOf_impl (cls cls' : ascii -> bool) (s : string) :
  (forall a, cls a = true -> cls' a = true) ->
  allOf cls s = true -> allOf cls' s = true.
Proof.
  intros Himp. induction s as [|x s IH]; cbn; [reflexivity |].
  intros H. apply andb_true_iff in H as [Hx Hs].
  now rewrite (Himp _ Hx), IH.
Qed.

Lemma digit_not_newline (a : ascii) : digit a = true -> negb (newline a) = true.
Proof.
  unfold digit, newline. intros H. apply andb_true_iff in H as [H1 H2].
  apply Nat.leb_le in H1. apply negb_true_iff, Nat.eqb_neq. lia.
Qed.

Lemma expand_leaves_no_placeholder (n : nat) : forall text,
  len text <= n ->
  forall before d after, d <> "" -> allOf digit d = true ->
  expandImageRowPlaceholders text
  <> before ++ ("[[MATCHA_IMG_ROWS:" ++ d ++ "]]") ++ after.
Proof.
  induction n as [|n IH]; intros text Hlen before d after Hne Hd H.
  - assert (text = "") by (apply len_zero; lia). subst text.
    destruct before; discriminate.
  - destruct text as [|a t]; [destruct before; discriminate |].
    destruct (markerAt imageRowPlaceholderPrefix "]]" (String a t))
      as [[d' rest_]|] eqn:Em.
    + pose proof Em as Em'. apply markerAt_inv in Em' as (Hs & Hne' & Hd').
      assert (Hs' : String a t = ("[[MATCHA_IMG_ROWS:" ++ d' ++ "]]") ++ rest_).
      { rewrite Hs. unfold imageRowPlaceholderPrefix. now rewrite !append_assoc. }
      rewrite Hs', expand_placeholder in H by assumption.
      apply (Repeat_LF_split _ _ _ ("[MATCHA_IMG_ROWS:" ++ d ++ "]]")) in H;
        [| discriminate].
      destruct H as (before' & _ & H).
      apply (IH rest_) with (before := before') (d := d) (after := after); auto.
      apply (f_equal len) in Hs'. rewrite len_append in Hs'. cbn in Hs', Hlen. lia.
    + destruct before as [|y before].
      * change ("" ++ ?z) with z in H.
        apply expand_prefix_inv in H as [after' H].
        -- rewrite H in Em.
           rewrite append_assoc, append_assoc in Em.
           unfold imageRowPlaceholderPrefix in Em.
           rewrite (markerAt_intro "[[MATCHA_IMG_ROWS:" "]" "]" d after') in Em
             by auto using digit_close.
           discriminate.
        -- rewrite !allOf_append.
           rewrite (allOf_impl digit _ d digit_not_newline Hd). reflexivity.
      * rewrite expand_other in H by assumption.
        change (String y before ++ ?z) with (String y (before ++ z)) in H.
        injection H as _ H.
        apply (IH t) with (before := before) (d := d) (after := after); auto.
        cbn in Hlen. lia.
Qed.

(** C7.  The finalizer replaces every image-row placeholder
    [[MATCHA_IMG_ROWS:N]] by N newlines, and by one newline when the
    digits stand for less than 1 or for a number that the scan rejects;
    so every placeholder yields at least one newline.  The bytes that
    start no placeholder are kept, and no placeholder is left in the
    result. *)
Theorem expandImageRowPlaceholders_spec :
  let marker d := "[[MATCHA_IMG_ROWS:" ++ d ++ "]]" in
  let number d := d <> "" /\ allOf digit d = true in
  (forall N rest_, (1 <= N <= maxInt)%Z ->
     expandImageRowPlaceholders (marker (itoa N) ++ rest_)
     = Repeat LF (Z.to_nat N) ++ expandImageRowPlaceholders rest_) /\
  (forall d rest_, number d ->
     (Sscanf_d d = None \/ exists v, Sscanf_d d = Some v /\ (v < 1)%Z) ->
     expandImageRowPlaceholders (marker d ++ rest_)
     = LF ++ expandImageRowPlaceholders rest_) /\
  (forall d rest_, number d ->
     exists n, 1 <= n /\
       expandImageRowPlaceholders (marker d ++ rest_)
       = Repeat LF n ++ expandImageRowPlaceholders rest_ /\
       (forall v, Sscanf_d d = Some v -> (1 <= v)%Z -> n = Z.to_nat v)) /\
  (forall a t, (forall d rest_, number d -> String a t <> marker d ++ rest_) ->
     expandImageRowPlaceholders (String a t)
     = String a (expandImageRowPlaceholders t)) /\
  expandImageRowPlaceholders "" = "" /\
  (forall text before d after, number d ->
     expandImageRowPlaceholders text <> before ++ marker d ++ after).
Proof.
  intros marker number. subst marker number. cbv beta.
  split; [| split; [| split; [| split; [| split]]]].
  - intros N rest_ HN.
    destruct (itoa_number N ltac:(lia)) as [Hne Hd].
    rewrite expand_placeholder by assumption. f_equal. f_equal.
    unfold rowsFor. rewrite Sscanf_d_itoa by lia.
    destruct (Z.ltb_spec N 1); [lia | reflexivity].
  - intros d rest_ [Hne Hd] Hbad.
    rewrite expand_placeholder by assumption. f_equal.
    unfold rowsFor. destruct Hbad as [-> | (v & -> & Hv)]; [reflexivity |].
    destruct (Z.ltb_spec v 1); [reflexivity | lia].
  - intros d rest_ [Hne Hd]. exists (rowsFor d).
    split; [apply rowsFor_pos |]. split; [now apply expand_placeholder |].
    intros v Hv Hv1. unfold rowsFor. rewrite Hv.
    destruct (Z.ltb_spec v 1); [lia | reflexivity].
  - intros a t Hno. apply expand_other.
    destruct (markerAt imageRowPlaceholderPrefix "]]" (String a t))
      as [[d rest_]|] eqn:Em; [| reflexivity].
    apply markerAt_inv in Em as (Hs & Hne & Hd).
    exfalso. apply (Hno d rest_ (conj Hne Hd)).
    rewrite Hs. unfold imageRowPlaceholderPrefix. now rewrite !append_assoc.
  - reflexivity.
  - intros text before d after [Hne Hd].
    now apply (expand_leaves_no_placeholder (len text)).
Qed.

(** *** Quote placeholders *)

(** C8 (the code departs from the claim).  An index that does not fit an
    int makes the scan fail; the code does not look at the error, [idx]
    stays 0, and the placeholder, whose index is out of range, is replaced
    by the box of record 0 instead of being left as it is. *)
Theorem quote_index_overflow_takes_record_0 (q : quote) :
  resolveQuotePlaceholders [q] "[[MATCHA_QUOTE:18446744073709551616]]"
  = renderQuoteBox (q_from q) (q_date q) (Split (q_content q) LF).
Proof.
  unfold resolveQuotePlaceholders.
  change quoteRegex with (markerRegex "[[MATCHA_QUOTE:" "]]").
  erewrite (replace_marker "[[MATCHA_QUOTE:" "]" "]");
    [| exact digit_close | vm_compute; reflexivity].
  rewrite append_nil_r. reflexivity.
Qed.

(** What the replacement does with a placeholder in general: the record
    at the index when the scan succeeds and the index is in range, the
    placeholder itself when the scan succeeds and it is not, and record 0,
    if there is one, when the scan fails. *)
Lemma quote_placeholder_resolution (quoteData : list quote) (d rest_ : string) :
  d <> "" -> allOf digit d = true ->
  let box q := renderQuoteBox (q_from q) (q_date q) (Split (q_content q) LF) in
  resolveQuotePlaceholders quoteData (("[[MATCHA_QUOTE:" ++ d ++ "]]") ++ rest_)
  = match Sscanf_d d with
    | Some idx =>
        match nth_error quoteData (Z.to_nat idx) with
        | Some q => box q
        | None => "[[MATCHA_QUOTE:" ++ d ++ "]]"
        end
    | None =>
        match quoteData with
        | q :: _ => box q
        | [] => "[[MATCHA_QUOTE:" ++ d ++ "]]"
        end
    end ++ resolveQuotePlaceholders quoteData rest_.
Proof.
  intros Hne Hd box. unfold resolveQuotePlaceholders.
  change quoteRegex with (markerRegex "[[MATCHA_QUOTE:" "]]").
  rewrite (replace_marker _ _ _ _ _ d rest_ digit_close)
    by (rewrite append_assoc, append_assoc; apply markerAt_intro; auto).
  f_equal.
  assert (Hfind : FindStringSubmatch (markerRegex "[[MATCHA_QUOTE:" "]]")
                    ("[[MATCHA_QUOTE:" ++ d ++ "]]")
                  = Some [("[[MATCHA_QUOTE:" ++ d ++ "]]"); d]).
  { unfold FindStringSubmatch.
    assert (Hm : matchAt (markerRegex "[[MATCHA_QUOTE:" "]]") 0
                   ("[[MATCHA_QUOTE:" ++ d ++ "]]")
                 = Some (len ("[[MATCHA_QUOTE:" ++ d ++ "]]"), [d])).
    { rewrite matchAt_marker by reflexivity.
      pose proof (markerAt_intro "[[MATCHA_QUOTE:" "]" "]" d "" eq_refl Hne Hd) as Hi.
      change ("]]" ++ "") with "]]" in Hi. rewrite Hi.
      rewrite !len_append. reflexivity. }
    destruct ("[[MATCHA_QUOTE:" ++ d ++ "]]") eqn:E; [discriminate |].
    rewrite <- E in *. rewrite E at 1. cbn [findFrom]. rewrite <- E, Hm.
    now rewrite take_all by lia. }
  rewrite Hfind.
  destruct (Sscanf_d d) as [idx|] eqn:Hscan.
  - assert (H0 : (0 <= idx)%Z).
    { unfold Sscanf_d in Hscan.
      destruct (NilZero.uint_of_string d); [| discriminate].
      destruct (Z.leb_spec (Z.of_N (N.of_uint u)) maxInt); [| discriminate].
      injection Hscan as <-. lia. }
    destruct (Z.leb_spec 0 idx); [| lia]. cbn [andb].
    destruct (Z.ltb_spec idx (Z.of_nat (List.length quoteData))) as [Hlt | Hge].
    + reflexivity.
    + replace (nth_error quoteData (Z.to_nat idx)) with (@None quote);
        [reflexivity |].
      symmetry. apply nth_error_None. lia.
  - destruct quoteData as [|q qs]; reflexivity.
Qed.

(** In range the placeholder is resolved, and out of range within the
    ints it is kept. *)
Lemma quote_placeholder_in_range (q0 q1 : quote) :
  resolveQuotePlaceholders [q0; q1] ("[[MATCHA_QUOTE:1]]" ++ LF ++ "[[MATCHA_QUOTE:2]]")
  = renderQuoteBox (q_from q1) (q_date q1) (Split (q_content q1) LF)
    ++ LF ++ "[[MATCHA_QUOTE:2]]".
Proof.
  vm_compute. reflexivity.
Qed.

(** *** Quote detection *)

(** C9 (the code departs from the claim).  On the reply chain of the
    specification the two lazy groups of the header expression stop at
    the first comma: the date group is "Jan 2", which no layout parses,
    and the sender group is "2006 at 3:04 PM, alice@x.com".  The box has
    the two quoted lines without their markers, but its header shows the
    rest of the date in front of the address and no reformatted date. *)
Theorem replyChain_header_groups :
  FindStringSubmatch onWroteLineRegex "On Jan 2, 2006 at 3:04 PM, alice@x.com wrote:"
  = Some ["On Jan 2, 2006 at 3:04 PM, alice@x.com wrote:";
          "Jan 2"; "2006 at 3:04 PM, alice@x.com"] /\
  styleQuotedReplies replyChain
  = renderQuoteBox "2006 at 3:04 PM, alice@x.com" (parseDateForDisplay "Jan 2")
      ["line one"; "line two"].
Proof. split; vm_compute; reflexivity. Qed.

(** The blockquote pass, through which the same text goes once goldmark
    has turned it into a paragraph and a blockquote, reads the same
    groups with the same expression. *)
Lemma replyChain_blockquote_record :
  snd (extractQuotes replyChainDoc)
  = [mkQuote "2006 at 3:04 PM, alice@x.com" (parseDateForDisplay "Jan 2")
       ("line one" ++ LF ++ "line two")].
Proof. vm_compute. reflexivity. Qed.

(** With a time package that rejects "Jan 2" under every layout, as Go's
    does, the header shows that fragment as the date. *)
Lemma replyChain_date_not_reformatted :
  (forall layout, In layout dateFormats -> timeParse layout "Jan 2" = None) ->
  parseDateForDisplay "Jan 2" = "Jan 2".
Proof.
  intros H. unfold parseDateForDisplay.
  assert (Hall : forall fs, (forall l, In l fs -> In l dateFormats) ->
                            firstParse fs "Jan 2" = None).
  { induction fs as [|f fs IH]; intros Hin; [reflexivity |].
    cbn [firstParse]. rewrite (H f) by (apply Hin; now left).
    apply IH. intros l Hl. apply Hin. now right. }
  rewrite Hall; auto.
Qed.

(** *** The line scan *)

Lemma ltb_length_nonempty {A : Type} (l : list A) :
  Nat.ltb 0 (List.length l) = true -> l <> [].
Proof. destruct l; [discriminate | discriminate]. Qed.

Lemma flushQuote_emitted (lines : list string) (st : scan) :
  quoteBlock st <> [] ->
  Forall (emitted lines) (result st) ->
  Forall (emitted lines) (flushQuote st).
Proof.
  intros Hb Hr. unfold flushQuote. apply Forall_app. split; [assumption |].
  constructor; [| constructor]. left.
  now exists (quoteFrom st), (quoteDate st), (quoteBlock st).
Qed.

Lemma scanLine_emitted (lines : list string) (line : string)
      (after : list string) (st : scan) :
  In line lines ->
  Forall (emitted lines) (result st) ->
  Forall (emitted lines) (result (scanLine line after st)).
Proof.
  intros Hin Hr. unfold scanLine.
  assert (Hline : FindStringSubmatch onWroteLineRegex (TrimSpace line) = None ->
                  Forall (emitted lines) [line]).
  { intros E. constructor; [| constructor]. right. split; [assumption |].
    unfold isHeader. now rewrite E. }
  destruct (FindStringSubmatch onWroteLineRegex (TrimSpace line)) as [m|] eqn:E.
  - cbn [result].
    destruct (inQuote st && Nat.ltb 0 (List.length (quoteBlock st))) eqn:F;
      [| assumption].
    apply andb_true_iff in F as [_ F].
    apply flushQuote_emitted; [now apply ltb_length_nonempty | assumption].
  - specialize (Hline eq_refl).
    destruct (HasPrefix (TrimSpace line) ">"); [assumption |].
    destruct (inQuote st).
    + destruct ((TrimSpace line =? "") && _); [assumption |].
      destruct ((TrimSpace line =? "") && _); [assumption |].
      cbn [result]. apply Forall_app. split; [| assumption].
      destruct (Nat.ltb 0 (List.length (quoteBlock st))) eqn:F; [| assumption].
      apply flushQuote_emitted; [now apply ltb_length_nonempty | assumption].
    + cbn [result]. apply Forall_app. now split.
Qed.

Lemma scanLines_emitted (lines : list string) : forall todo st,
  (forall l, In l todo -> In l lines) ->
  Forall (emitted lines) (result st) ->
  Forall (emitted lines) (result (scanLines todo st)).
Proof.
  induction todo as [|line after IH]; intros st Hsub Hr; [assumption |].
  cbn [scanLines]. apply IH.
  - intros l Hl. apply Hsub. now right.
  - apply scanLine_emitted; [apply Hsub; now left | assumption].
Qed.

Lemma scanLine_plain (lines : list string) (line : string)
      (after : list string) (st : scan) :
  In line lines -> isQuoted line = false ->
  (forall l, In l after -> isQuoted l = false) ->
  plain lines st -> plain lines (scanLine line after st).
Proof.
  intros Hin Hq Hafter [Hb Hr]. unfold scanLine, plain.
  unfold isQuoted in Hq. rewrite Hq, Hb. cbn [List.length Nat.ltb Nat.leb].
  rewrite andb_false_r.
  assert (Hline : FindStringSubmatch onWroteLineRegex (TrimSpace line) = None ->
                  Forall (fun x => In x lines /\ isHeader x = false) [line]).
  { intros E. constructor; [| constructor]. split; [assumption |].
    unfold isHeader. now rewrite E. }
  destruct (FindStringSubmatch onWroteLineRegex (TrimSpace line)) as [m|] eqn:E.
  - cbn [result quoteBlock]. now split.
  - specialize (Hline eq_refl).
    assert (Hnext : match after with
                    | next :: _ => HasPrefix (TrimSpace next) ">"
                    | [] => false
                    end = false).
    { destruct after as [|next after']; [reflexivity |].
      apply (Hafter next). now left. }
    rewrite Hnext, andb_false_r. cbn [Nat.eqb]. rewrite andb_true_r.
    destruct (inQuote st).
    + destruct (TrimSpace line =? ""); cbn [result quoteBlock].
      * now split.
      * split; [reflexivity |]. apply Forall_app. now split.
    + cbn [result quoteBlock]. split; [reflexivity |]. apply Forall_app. now split.
Qed.

Lemma scanLines_plain (lines : list string) : forall todo st,
  (forall l, In l todo -> In l lines /\ isQuoted l = false) ->
  plain lines st -> plain lines (scanLines todo st).
Proof.
  induction todo as [|line after IH]; intros st Hsub Hp; [assumption |].
  cbn [scanLines]. apply IH.
  - intros l Hl. apply Hsub. now right.
  - apply scanLine_plain; try assumption.
    + apply Hsub. now left.
    + apply Hsub. now left.
    + intros l Hl. apply Hsub. now right.
Qed.

(** C10.  Whatever the line scan emits is a quote box or a line of the
    input that is no header "On DATE, X wrote:": a header line is never
    emitted.  When no line of the text is quoted with [>], no box is made
    either: the result holds lines of the input that are no headers, and
    the text of the headers is lost; so for a header followed by a line
    of its own. *)
Theorem header_lines_are_consumed (text : string) :
  let lines := Split text LF in
  (forall x, In x (styledLines text) ->
     (exists from date block, block <> [] /\ x = renderQuoteBox from date block)
     \/ (In x lines /\ isHeader x = false)) /\
  ((forall line, In line lines -> isQuoted line = false) ->
   forall x, In x (styledLines text) -> In x lines /\ isHeader x = false) /\
  styleQuotedReplies ("On Monday, bob@x.com wrote:" ++ LF ++ "See you.") = "See you.".
Proof.
  intros lines. split; [| split].
  - assert (H : Forall (emitted lines) (styledLines text)).
    { unfold styledLines. fold lines.
      pose proof (scanLines_emitted lines lines (mkScan [] [] "" "" false)
                    (fun l H => H) (Forall_nil _)) as Hr.
      destruct (inQuote _ && Nat.ltb 0 (List.length (quoteBlock _))) eqn:F;
        [| assumption].
      apply andb_true_iff in F as [_ F].
      apply flushQuote_emitted; [now apply ltb_length_nonempty | assumption]. }
    intros x Hx. exact (proj1 (Forall_forall _ _) H x Hx).
  - intros Hno.
    assert (H : plain lines (scanLines lines (mkScan [] [] "" "" false))).
    { apply scanLines_plain.
      - intros l Hl. split; [assumption | now apply Hno].
      - split; [reflexivity | constructor]. }
    destruct H as [Hb Hr]. unfold styledLines. fold lines. rewrite Hb.
    cbn [List.length Nat.ltb Nat.leb]. rewrite andb_false_r.
    intros x Hx. exact (proj1 (Forall_forall _ _) Hr x Hx).
  - vm_compute. reflexivity.
Qed.

(** *** Errors of the pipeline *)

(** C2.  [ProcessBody] and [ProcessBodyWithInline] return an error
    exactly when the parse of the normalized document fails.  A failure
    of the quoted-printable decoding is recovered from with the raw body,
    a failure of the Markdown conversion with the text as it is; whenever
    the parse succeeds the pipeline runs to its end and returns the
    rendered text with no error. *)
Theorem processBody_error_policy
        (rawBody : string) (inline : list InlineImage)
        (h1Style h2Style bodyStyle : string -> string) (disableImages : bool) :
  let decodedBody :=
    match quotedprintableReadAll rawBody with
    | Some decoded => decoded
    | None => rawBody
    end in
  let htmlBody :=
    match goldmarkConvert decodedBody with
    | Some html => html
    | None => decodedBody
    end in
  ProcessBodyWithInline rawBody inline h1Style h2Style bodyStyle disableImages
  = match NewDocumentFromReader htmlBody with
    | None => Error "could not parse email body"
    | Some doc =>
        let '(text, quoteData) :=
          transform doc (Some (inlineMap inline)) h1Style h2Style disableImages in
        Ok (bodyStyle (finalize text quoteData))
    end /\
  ProcessBody rawBody h1Style h2Style bodyStyle disableImages
  = match NewDocumentFromReader htmlBody with
    | None => Error "could not parse email body"
    | Some doc =>
        let '(text, quoteData) :=
          transform doc None h1Style h2Style disableImages in
        Ok (bodyStyle (finalize text quoteData))
    end /\
  ((exists message,
      ProcessBodyWithInline rawBody inline h1Style h2Style bodyStyle disableImages
      = Error message)
   <-> NewDocumentFromReader htmlBody = None) /\
  ((exists message,
      ProcessBody rawBody h1Style h2Style bodyStyle disableImages = Error message)
   <-> NewDocumentFromReader htmlBody = None) /\
  (NewDocumentFromReader htmlBody <> None ->
   exists text text',
     ProcessBodyWithInline rawBody inline h1Style h2Style bodyStyle disableImages
     = Ok (bodyStyle text) /\
     ProcessBody rawBody h1Style h2Style bodyStyle disableImages
     = Ok (bodyStyle text')).
Proof.
  intros decodedBody htmlBody.
  unfold ProcessBodyWithInline, ProcessBody, processBody,
    decodeQuotedPrintable, markdownToHTML.
  assert (Hd : match match quotedprintableReadAll rawBody with
                     | Some body => Some body
                     | None => None
                     end with
               | Some decoded => decoded
               | None => rawBody
               end = decodedBody).
  { subst decodedBody. now destruct (quotedprintableReadAll rawBody). }
  rewrite Hd. fold htmlBody.
  destruct (NewDocumentFromReader htmlBody) as [doc|].
  - destruct (transform doc (Some (inlineMap inline)) h1Style h2Style disableImages)
      as [text quoteData].
    destruct (transform doc None h1Style h2Style disableImages)
      as [text' quoteData'].
    repeat split; try reflexivity.
    + intros [message H]. discriminate.
    + discriminate.
    + intros [message H]. discriminate.
    + discriminate.
    + intros _. now exists (finalize text quoteData), (finalize text' quoteData').
  - repeat split; try reflexivity.
    + now exists "could not parse email body".
    + now exists "could not parse email body".
    + intros H. contradiction.
Qed.

(** *** Anchors *)








(** *** The CID image on a Kitty terminal *)









(** The passes of the finalizer over inert bytes. *)

Lemma matchAt_newlines (i : nat) (s : string) :
  matchAt newlinesRegex i s
  = match List.rev (filter (fun k => Nat.leb 3 k) (spans newline s)) with
    | k :: _ => Some (k, [])
    | [] => None
    end.
Proof.
  unfold matchAt, newlinesRegex. cbn [run rest].
  destruct (List.rev _) as [|k ks]; [reflexivity |].
  cbn [map advance pos caps]. do 2 f_equal. lia.
Qed.

Lemma matchAt_newlines_short (i : nat) (s : string) :
  runLength newline s < 3 -> matchAt newlinesRegex i s = None.
Proof.
  intros H. rewrite matchAt_newlines, spans_runLength.
  rewrite (filter_ext_in _ (fun _ => false)), filter_false; [reflexivity |].
  intros k Hk. apply in_seq in Hk. apply Nat.leb_gt. lia.
Qed.

Lemma collapse_step (a : ascii) (t repl : string) :
  runLength newline (String a t) < 3 ->
  ReplaceAllString newlinesRegex (String a t) repl
  = String a (ReplaceAllString newlinesRegex t repl).
Proof.
  intros H. unfold ReplaceAllString, ReplaceAllStringFunc. cbn [replaceFrom].
  rewrite matchAt_newlines_short by assumption. f_equal.
  apply replaceFrom_index. intros. now rewrite !matchAt_newlines.
Qed.






Lemma marker_newline (open' close : string) (f : string -> string) (t : string) :
  ReplaceAllStringFunc (markerRegex (String "[" open') (String "]" close)) (LF ++ t) f
  = LF ++ ReplaceAllStringFunc (markerRegex (String "[" open') (String "]" close)) t f.
Proof.
  unfold LF. cbn [append]. rewrite replace_no_marker; reflexivity.
Qed.

Lemma marker_newlines (open' close : string) (f : string -> string) (n : nat) (t : string) :
  ReplaceAllStringFunc (markerRegex (String "[" open') (String "]" close))
    (Repeat LF n ++ t) f
  = Repeat LF n
    ++ ReplaceAllStringFunc (markerRegex (String "[" open') (String "]" close)) t f.
Proof.
  induction n as [|n IH]; [reflexivity |].
  cbn [Repeat]. rewrite !append_assoc, marker_newline, IH. reflexivity.
Qed.

(** The line scan over lines that are neither headers nor quoted. *)

Lemma SplitByte_nonempty (s : string) (c : ascii) : SplitByte s c <> [].
Proof.
  destruct s as [|a r]; cbn; [discriminate |].
  destruct (Ascii.eqb a c); [discriminate |].
  destruct (SplitByte r c); discriminate.
Qed.

Lemma Join_Split (s : string) (c : ascii) :
  Join (SplitByte s c) (String c "") = s.
Proof.
  induction s as [|a r IH]; [reflexivity |].
  cbn [SplitByte]. destruct (Ascii.eqb_spec a c) as [-> | Hac].
  - rewrite Join_cons by apply SplitByte_nonempty. now rewrite IH.
  - pose proof (SplitByte_nonempty r c) as Hne.
    destruct (SplitByte r c) as [|l ls]; [contradiction |].
    destruct ls as [|l' ls].
    + cbn in *. now rewrite IH.
    + rewrite Join_cons in IH by discriminate.
      rewrite Join_cons by discriminate.
      change (String a l ++ ?x) with (String a (l ++ x)). now rewrite IH.
Qed.

Lemma SplitByte_block (a b : string) (c : ascii) :
  allOf (fun x => negb (Ascii.eqb x c)) a = true ->
  SplitByte (a ++ String c b) c = a :: SplitByte b c.
Proof.
  induction a as [|x a IH]; intros H; cbn [append SplitByte].
  - now rewrite Ascii.eqb_refl.
  - cbn in H. apply andb_true_iff in H as [Hx Ha].
    apply negb_true_iff in Hx. rewrite Hx, IH by assumption. reflexivity.
Qed.


Lemma scanLines_benign : forall lines st,
  inQuote st = false ->
  (forall l, In l lines -> isHeader l = false /\ isQuoted l = false) ->
  scanLines lines st
  = mkScan (result st ++ lines) (quoteBlock st) (quoteFrom st) (quoteDate st) false.
Proof.
  induction lines as [|line after IH]; intros st Hq Hb.
  - cbn. rewrite app_nil_r. destruct st; cbn in *. now subst.
  - cbn [scanLines].
    destruct (Hb line (or_introl eq_refl)) as [Hh Hquoted].
    assert (Hstep : scanLine line after st
                    = mkScan (result st ++ [line]) (quoteBlock st)
                        (quoteFrom st) (quoteDate st) false).
    { unfold scanLine. unfold isHeader in Hh. unfold isQuoted in Hquoted.
      destruct (FindStringSubmatch onWroteLineRegex (TrimSpace line));
        [discriminate |].
      now rewrite Hquoted, Hq. }
    rewrite Hstep, IH.
    + cbn [result quoteBlock quoteFrom quoteDate]. now rewrite <- app_assoc.
    + reflexivity.
    + intros l Hl. apply Hb. now right.
Qed.

Lemma styleQuotedReplies_benign (text : string) :
  (forall l, In l (Split text LF) -> isHeader l = false /\ isQuoted l = false) ->
  styleQuotedReplies text = text.
Proof.
  intros Hb. unfold styleQuotedReplies, styledLines.
  rewrite scanLines_benign by (try reflexivity; assumption).
  cbn [inQuote andb result app]. apply Join_Split.
Qed.

Lemma rev_involutive (s : string) : rev (rev s) = s.
Proof.
  induction s as [|a s IH]; [reflexivity |].
  change (String a s) with (String a "" ++ s) at 1.
  rewrite rev_append, rev_append, IH. reflexivity.
Qed.


Lemma findFrom_Bol_later (r : re) : forall s i,
  1 <= i -> findFrom (Cat Bol r) i s = None.
Proof.
  induction s as [|a t IH]; intros i Hi; cbn [findFrom];
    unfold matchAt; cbn [run pos];
    destruct (Nat.eqb_spec i 0); try lia; cbn [flat_map]; [reflexivity |].
  apply IH. lia.
Qed.

Lemma not_On_no_header (s : string) :
  HasPrefix s "On" = false -> FindStringSubmatch onWroteLineRegex s = None.
Proof.
  intros H. unfold FindStringSubmatch.
  change onWroteLineRegex
    with (Cat Bol (Cat (Lit "On") (seq (List.tl onWrote ++ [Eol])))).
  assert (H0 : matchAt (Cat Bol (Cat (Lit "On") (seq (List.tl onWrote ++ [Eol])))) 0 s
               = None).
  { unfold matchAt. rewrite run_Cat. cbn [run pos Nat.eqb flat_map].
    cbn [rest]. now rewrite H. }
  destruct s as [|a t]; cbn [findFrom]; rewrite H0; [reflexivity |].
  apply findFrom_Bol_later. lia.
Qed.





Lemma resolve_newlines (quoteData : list quote) (n : nat) (t : string) :
  resolveQuotePlaceholders quoteData (Repeat LF n ++ t)
  = Repeat LF n ++ resolveQuotePlaceholders quoteData t.
Proof. unfold resolveQuotePlaceholders. apply marker_newlines. Qed.








Lemma imageRows_pos (payload : string) : (1 <= imageRows payload)%Z.
Proof.
  unfold imageRows.
  destruct (base64Decode payload) as [data|]; [| lia].
  destruct (imageDecodeHeight data) as [h|]; [| lia].
  destruct (Z.ltb_spec (Z.quot (wrap (h + getTerminalCellSize - 1)) getTerminalCellSize) 1);
    lia.
Qed.

Lemma nonEmpty_true (s : string) : s <> "" -> nonEmpty s = true.
Proof. intros H. unfold nonEmpty. now destruct (String.eqb_spec s ""). Qed.







(** *** The sample parser on text *)



(** *** Payloads of data URIs *)

Lemma Index_byte (c : ascii) (a b : string) :
  Contains a (String c "") = false ->
  Index (a ++ String c b) (String c "") = Some (len a).
Proof.
  induction a as [|x a IH]; intros H.
  - cbn. now rewrite Ascii.eqb_refl.
  - cbn in H |- *. apply orb_false_iff in H as [Hx Ha].
    rewrite Hx. now rewrite (IH Ha).
Qed.

Lemma Index_none (s sub : string) :
  Contains s sub = false -> Index s sub = None.
Proof.
  induction s as [|x s IH]; intros H.
  - destruct sub; [discriminate | reflexivity].
  - cbn [Contains] in H. apply orb_false_iff in H as [Hx Hs].
    cbn [Index]. rewrite Hx. now rewrite (IH Hs).
Qed.

(** X1: a data URI gives what follows its first comma, and the empty payload
    when it does not start with [data:], holds no comma, or ends with its
    first comma. *)
Theorem dataURIBase64_payload :
  (forall meta payload,
     Contains meta "," = false ->
     dataURIBase64 ("data:" ++ meta ++ "," ++ payload) = payload) /\
  (forall uri, HasPrefix uri "data:" = false -> dataURIBase64 uri = "") /\
  (forall uri, Contains uri "," = false -> dataURIBase64 uri = "").
Proof.
  repeat split.
  - intros meta payload Hmeta. unfold dataURIBase64.
    rewrite HasPrefix_append. cbn [negb].
    assert (Hhead : Contains ("data:" ++ meta) "," = false) by (cbn; exact Hmeta).
    replace ("data:" ++ meta ++ "," ++ payload)
      with (("data:" ++ meta) ++ String "," payload)
      by (now rewrite append_assoc).
    rewrite (Index_byte _ _ _ Hhead).
    rewrite len_append. cbn [String.length].
    destruct payload as [|a p]; cbn [String.length].
    + replace (Nat.leb _ _) with true; [reflexivity |].
      symmetry. apply Nat.leb_le. lia.
    + replace (Nat.leb _ _) with false.
      * replace (len ("data:" ++ meta) + 1) with (len (("data:" ++ meta) ++ ","))
          by (rewrite len_append; reflexivity).
        replace (("data:" ++ meta) ++ String "," (String a p))
          with ((("data:" ++ meta) ++ ",") ++ String a p)
          by (now rewrite !append_assoc).
        apply drop_append.
      * symmetry. apply Nat.leb_gt. lia.
  - intros uri H. unfold dataURIBase64. now rewrite H.
  - intros uri H. unfold dataURIBase64. rewrite (Index_none _ _ H).
    now destruct (HasPrefix uri "data:").
Qed.

(** *** Detectors and encoders *)

Lemma kittyInlineImage_nonempty (payload : string) :
  payload <> "" -> kittyInlineImage payload <> "".
Proof.
  intros H. destruct (kittyInlineImage_start payload H) as [r ->]. discriminate.
Qed.

Lemma iterm2InlineImage_nonempty (payload : string) :
  payload <> "" -> iterm2InlineImage payload <> "".
Proof.
  intros H. destruct (iterm2InlineImage_start payload H) as [r ->]. discriminate.
Qed.

Lemma renderInlineImage_supported (payload : string) :
  payload <> "" -> imageProtocolSupported = true ->
  renderInlineImage payload <> "".
Proof.
  intros Hne. pose proof (kittyInlineImage_nonempty payload Hne) as Hk.
  pose proof (iterm2InlineImage_nonempty payload Hne) as Hi.
  unfold renderInlineImage, imageProtocolSupported.
  rewrite (proj2 (String.eqb_neq _ _) Hne).
  destruct kittySupported, ghosttySupported, iterm2Supported, weztermSupported,
    waystSupported, warpSupported, konsoleSupported; cbn [orb];
    intros H; try assumption; discriminate H.
Qed.

(** X2: the dispatch of [renderInlineImage] covers the detectors of
    [imageProtocolSupported] and no other: a payload is rendered to
    something exactly when it is not empty and a protocol is detected. *)
Theorem renderInlineImage_nonempty (payload : string) :
  renderInlineImage payload <> "" <->
  (payload <> "" /\ imageProtocolSupported = true).
Proof.
  destruct (String.eqb_spec payload "") as [-> | Hne].
  - split; [intros H; now contradiction H | intros [H _]; now contradiction H].
  - pose proof (kittyInlineImage_nonempty payload Hne) as Hk.
    pose proof (iterm2InlineImage_nonempty payload Hne) as Hi.
    unfold renderInlineImage, imageProtocolSupported.
    rewrite (proj2 (String.eqb_neq _ _) Hne).
    destruct kittySupported, ghosttySupported, iterm2Supported, weztermSupported,
      waystSupported, warpSupported, konsoleSupported; cbn [orb];
      split; try (intros _; split; [assumption | reflexivity]);
      try (intros _; assumption);
      try (intros H; now contradiction H);
      try (intros [_ H]; discriminate H).
Qed.

Lemma kitty_hyperlinks : kittySupported = true -> hyperlinkSupported = true.
Proof.
  unfold kittySupported, hyperlinkSupported. cbn [containsAny].
  destruct (Contains (ToLower (Getenv "TERM")) "kitty"); [reflexivity |].
  intros ->. cbn [orb].
  repeat match goal with
         | |- context [if ?b then true else _] => destruct b; try reflexivity
         end.
Qed.

(** X3: where the Kitty detector answers, hyperlinks are detected too, so
    an image is drawn with the Kitty protocol or, without a payload or
    with images disabled, becomes the clickable text; the plain
    [[Image: alt, src]] is never written. *)
Theorem kitty_image_fallback_is_clickable
        (inline : option (list (string * string))) (disableImages : bool)
        (src alt : string) :
  kittySupported = true ->
  hyperlinkSupported = true /\
  let shown := if alt =? "" then "Does not contain alt text" else alt in
  (imageMarkup inline disableImages src alt
   = hyperlink src (LF ++ " [Click here to view image: " ++ shown ++ "] " ++ LF)
   \/ exists payload, payload <> "" /\
        imageMarkup inline disableImages src alt
        = LF ++ kittyInlineImage payload ++ LF).
Proof.
  intros Hk. pose proof (kitty_hyperlinks Hk) as Hh.
  split; [exact Hh |]. cbv zeta. unfold imageMarkup.
  assert (Hp : imageProtocolSupported = true)
    by (unfold imageProtocolSupported; now rewrite Hk).
  rewrite Hp, Hh, andb_true_r.
  destruct disableImages; cbn [negb]; [left; reflexivity |].
  match goal with
  | |- context [if nonEmpty ?p then renderInlineImage ?p else ""] =>
      set (payload := p)
  end.
  destruct (String.eqb_spec payload "") as [He | Hne].
  - left. unfold nonEmpty at 1. rewrite He. reflexivity.
  - right. exists payload. split; [exact Hne |].
    rewrite (nonEmpty_true _ Hne).
    assert (Hr : renderInlineImage payload = kittyInlineImage payload).
    { unfold renderInlineImage. rewrite (proj2 (String.eqb_neq _ _) Hne).
      now rewrite Hk. }
    rewrite Hr. rewrite (nonEmpty_true _ (kittyInlineImage_nonempty _ Hne)).
    reflexivity.
Qed.

(** *** Rows, from the encoder to the finalizer *)

Lemma wrap_range (x : Z) : (- 2 ^ 63 <= wrap x <= maxInt)%Z.
Proof.
  unfold wrap, maxInt.
  pose proof (Z.mod_pos_bound (x + 2 ^ 63) (2 ^ 64) ltac:(lia)). lia.
Qed.

Lemma imageRows_max (payload : string) : (imageRows payload <= maxInt)%Z.
Proof.
  unfold imageRows.
  destruct (base64Decode payload) as [data |]; [| unfold maxInt; lia].
  destruct (imageDecodeHeight data) as [h |]; [| unfold maxInt; lia].
  cbv zeta.
  destruct (Z.ltb_spec (Z.quot (wrap (h + getTerminalCellSize - 1)) getTerminalCellSize) 1)
    as [_ | Hge]; [unfold maxInt; lia |].
  pose proof getTerminalCellSize_pos as Hc.
  pose proof (wrap_range (h + getTerminalCellSize - 1)) as [_ Hw].
  set (w := wrap (h + getTerminalCellSize - 1)) in *.
  destruct (Z.le_gt_cases 0 w) as [Hpos | Hneg].
  - rewrite Z.quot_div_nonneg by lia.
    pose proof (Z.div_le_upper_bound w getTerminalCellSize w ltac:(lia) ltac:(nia)).
    lia.
  - exfalso. replace w with (- (- w))%Z in Hge by lia.
    rewrite Z.quot_opp_l in Hge by lia.
    pose proof (Z.quot_pos (- w) getTerminalCellSize ltac:(lia) ltac:(lia)). lia.
Qed.

(** X4: the cell height is positive whatever the terminal answers, so the
    division of the row count is defined; the count is at least 1 and fits
    an int for every payload, and the placeholder that carries it is
    expanded by the finalizer into exactly that many newlines. *)
Theorem image_rows_round_trip (payload rest_ : string) :
  (0 < getTerminalCellSize)%Z /\
  (1 <= imageRows payload <= maxInt)%Z /\
  expandImageRowPlaceholders (imageRowPlaceholder (imageRows payload) ++ rest_)
  = Repeat LF (Z.to_nat (imageRows payload)) ++ expandImageRowPlaceholders rest_.
Proof.
  pose proof (imageRows_pos payload) as Hlo.
  pose proof (imageRows_max payload) as Hhi.
  split; [apply getTerminalCellSize_pos |]. split; [lia |].
  destruct (itoa_number (imageRows payload) ltac:(lia)) as [Hne Hd].
  unfold imageRowPlaceholder, imageRowPlaceholderPrefix, imageRowPlaceholderSuffix.
  rewrite (expand_placeholder _ rest_ Hne Hd).
  unfold rowsFor. rewrite Sscanf_d_itoa by lia.
  destruct (Z.ltb_spec (imageRows payload) 1); [lia | reflexivity].
Qed.

(** *** The collapse of newlines *)

Lemma rev_filter_seq (m k : nat) :
  m <= k ->
  exists l, List.rev (filter (fun j => Nat.leb m j) (List.seq 0 (S k))) = k :: l.
Proof.
  intros H. rewrite seq_S, filter_app, rev_app_distr. cbn [filter plus].
  rewrite (proj2 (Nat.leb_le m k) H). cbn [List.rev app]. eauto.
Qed.

Lemma matchAt_newlines_long (i : nat) (s : string) :
  3 <= runLength newline s ->
  matchAt newlinesRegex i s = Some (runLength newline s, []).
Proof.
  intros H. rewrite matchAt_newlines, spans_runLength.
  destruct (rev_filter_seq 3 (runLength newline s) H) as [l ->]. reflexivity.
Qed.

Lemma collapse_long (s repl : string) :
  3 <= runLength newline s ->
  ReplaceAllString newlinesRegex s repl
  = repl ++ ReplaceAllString newlinesRegex (drop (runLength newline s) s) repl.
Proof.
  intros H. unfold ReplaceAllString, ReplaceAllStringFunc.
  destruct (runLength newline s) as [|k] eqn:Hk; [lia |].
  assert (Hne : s <> "") by (intros ->; discriminate).
  pose proof (matchAt_newlines_long 0 s) as Hm. rewrite Hk in Hm.
  rewrite (replaceFrom_match _ _ 0 k [] s Hne (Hm H)).
  f_equal. apply replaceFrom_index.
  intros i j t. now rewrite !matchAt_newlines.
Qed.

Lemma runLength_drop (cls : ascii -> bool) (s : string) :
  runLength cls (drop (runLength cls s) s) = 0.
Proof.
  induction s as [|a s IH]; [reflexivity |].
  cbn [runLength]. destruct (cls a) eqn:Ha; [exact IH |].
  cbn [drop runLength]. now rewrite Ha.
Qed.

Lemma collapse_head (repl : string) : forall s,
  runLength newline s < 3 ->
  runLength newline (ReplaceAllString newlinesRegex s repl) = runLength newline s.
Proof.
  induction s as [|a s IH]; intros H; [reflexivity |].
  rewrite (collapse_step a s repl H).
  cbn [runLength] in H |- *. destruct (newline a); [| reflexivity].
  rewrite IH by lia. reflexivity.
Qed.

Lemma HasPrefix_newlines (s : string) (n : nat) :
  HasPrefix s (Repeat LF n) = true -> n <= runLength newline s.
Proof.
  revert s. induction n as [|n IH]; intros s H; [lia |].
  destruct s as [|a s]; [discriminate |].
  change (Repeat LF (S n)) with (String "010" (Repeat LF n)) in H.
  cbn [HasPrefix] in H. apply andb_true_iff in H as [Ha Hs].
  apply Ascii.eqb_eq in Ha. subst a.
  change (runLength newline (String "010" s)) with (S (runLength newline s)).
  apply le_n_S, IH, Hs.
Qed.

Lemma newlines_HasPrefix (s : string) (n : nat) :
  n <= runLength newline s -> HasPrefix s (Repeat LF n) = true.
Proof.
  revert s. induction n as [|n IH]; intros s H; [reflexivity |].
  destruct s as [|a s]; [cbn in H; lia |].
  cbn [runLength] in H. destruct (newline a) eqn:Ha; [| lia].
  apply Nat.eqb_eq in Ha.
  assert (a = "010"%char) as ->.
  { rewrite <- (ascii_nat_embedding a), Ha. reflexivity. }
  change (Repeat LF (S n)) with (String "010" (Repeat LF n)).
  cbn [HasPrefix]. rewrite Ascii.eqb_refl. apply IH. lia.
Qed.

Lemma no_triple_after_two (x : string) :
  runLength newline x = 0 ->
  Contains x (LF ++ LF ++ LF) = false ->
  Contains (LF ++ LF ++ x) (LF ++ LF ++ LF) = false.
Proof.
  intros Hrun Hx. destruct x as [|b x]; [reflexivity |].
  cbn [runLength] in Hrun. destruct (newline b) eqn:Hb; [discriminate |].
  assert (Hne : Ascii.eqb "010" b = false).
  { destruct (Ascii.eqb_spec "010"%char b) as [<- |]; [discriminate | reflexivity]. }
  change (LF ++ LF ++ String b x) with (String "010" (String "010" (String b x))).
  change (LF ++ LF ++ LF) with (String "010" (String "010" (String "010" ""))) in *.
  cbn [Contains] in Hx |- *. apply orb_false_iff in Hx as [Hx1 Hx2].
  rewrite Hx2. cbn [HasPrefix]. rewrite Hne, Ascii.eqb_refl. reflexivity.
Qed.

Lemma collapse_no_triple (n : nat) : forall s,
  len s <= n ->
  Contains (ReplaceAllString newlinesRegex s (LF ++ LF)) (LF ++ LF ++ LF) = false.
Proof.
  induction n as [|n IH]; intros s Hn.
  - destruct s; [reflexivity | cbn in Hn; lia].
  - destruct s as [|a t]; [reflexivity |].
    destruct (Nat.lt_ge_cases (runLength newline (String a t)) 3) as [Hshort | Hlong].
    + rewrite (collapse_step a t _ Hshort). cbn [Contains].
      rewrite IH by (cbn in Hn; lia). rewrite orb_false_r.
      destruct (HasPrefix _ _) eqn:Hp; [| reflexivity]. exfalso.
      apply (HasPrefix_newlines _ 3) in Hp.
      cbn [runLength] in Hshort, Hp. destruct (newline a); [| lia].
      rewrite collapse_head in Hp by lia. lia.
    + rewrite (collapse_long _ _ Hlong).
      set (d := drop (runLength newline (String a t)) (String a t)).
      assert (Hd : len d <= n).
      { unfold d. rewrite len_drop. cbn [String.length] in Hn |- *. lia. }
      rewrite append_assoc. apply no_triple_after_two; [| now apply IH].
      rewrite collapse_head; unfold d; rewrite runLength_drop; lia.
Qed.

Lemma without_append (cls : ascii -> bool) (a b : string) :
  without cls (a ++ b) = without cls a ++ without cls b.
Proof.
  induction a as [|x a IH]; [reflexivity |].
  cbn. destruct (cls x); [exact IH | cbn; now rewrite IH].
Qed.

Lemma without_all (cls : ascii -> bool) (s : string) :
  allOf cls s = true -> without cls s = "".
Proof.
  induction s as [|a s IH]; intros H; [reflexivity |].
  cbn in H |- *. apply andb_true_iff in H as [Ha Hs]. rewrite Ha. now apply IH.
Qed.

Lemma collapse_keeps_bytes (n : nat) : forall s,
  len s <= n ->
  without newline (ReplaceAllString newlinesRegex s (LF ++ LF)) = without newline s.
Proof.
  induction n as [|n IH]; intros s Hn.
  - destruct s; [reflexivity | cbn in Hn; lia].
  - destruct s as [|a t]; [reflexivity |].
    destruct (Nat.lt_ge_cases (runLength newline (String a t)) 3) as [Hshort | Hlong].
    + rewrite (collapse_step a t _ Hshort). cbn [without].
      rewrite IH by (cbn in Hn; lia). reflexivity.
    + rewrite (collapse_long _ _ Hlong).
      set (k := runLength newline (String a t)) in *.
      rewrite without_append. change (without newline (LF ++ LF)) with "".
      change ("" ++ ?x) with x.
      rewrite IH by (rewrite len_drop; cbn [String.length] in Hn |- *; lia).
      rewrite <- (take_drop k (String a t)) at 2.
      rewrite without_append. unfold k at 2.
      rewrite (without_all _ _ (allOf_take_run newline (String a t))).
      reflexivity.
Qed.

Lemma collapse_id (repl : string) : forall s,
  Contains s (LF ++ LF ++ LF) = false ->
  ReplaceAllString newlinesRegex s repl = s.
Proof.
  induction s as [|a t IH]; intros H; [reflexivity |].
  cbn [Contains] in H. apply orb_false_iff in H as [Hp Ht].
  rewrite collapse_step.
  - now rewrite IH.
  - destruct (Nat.lt_ge_cases (runLength newline (String a t)) 3) as [Hs | Hl];
      [exact Hs |].
    apply (newlines_HasPrefix _ 3) in Hl.
    change (Repeat LF 3) with (LF ++ LF ++ LF) in Hl. congruence.
Qed.

(** X5: after the collapse of [\n{3,}] into two newlines no three newlines
    stand in a row; the other bytes are kept, in their order; a text
    without three newlines in a row is not changed. *)
Theorem newline_collapse (text : string) :
  let collapsed := ReplaceAllString newlinesRegex text (LF ++ LF) in
  Contains collapsed (LF ++ LF ++ LF) = false /\
  without newline collapsed = without newline text /\
  (Contains text (LF ++ LF ++ LF) = false -> collapsed = text).
Proof.
  cbv zeta. split; [| split].
  - now apply (collapse_no_triple (len text)).
  - now apply (collapse_keeps_bytes (len text)).
  - apply collapse_id.
Qed.

(** *** The finalizer on ordinary text *)

Lemma HasPrefix_app_false (p q : string) : forall s,
  HasPrefix s p = false -> HasPrefix s (p ++ q) = false.
Proof.
  induction p as [|x p IH]; intros s H; [discriminate |].
  destruct s as [|a s]; [reflexivity |].
  cbn in H |- *. destruct (Ascii.eqb x a); [now apply IH | reflexivity].
Qed.

Lemma marker_absent (p q : string) (c : ascii) (close : string)
      (f : string -> string) :
  digit c = false ->
  forall s, Contains s p = false ->
  ReplaceAllStringFunc (markerRegex (p ++ q) (String c close)) s f = s.
Proof.
  intros Hc. induction s as [|a t IH]; intros H; [reflexivity |].
  cbn [Contains] in H. apply orb_false_iff in H as [Hp Ht].
  rewrite replace_no_marker.
  - now rewrite IH.
  - exact Hc.
  - unfold markerAt. now rewrite (HasPrefix_app_false p q _ Hp).
Qed.

(** X6: the finalizer returns a text as it is when the text holds no three
    newlines in a row and nowhere the opening [[[MATCHA_] of a placeholder,
    and none of its lines is a header "On ... wrote:" or starts with [>]. *)
Theorem finalize_ordinary_text (quoteData : list quote) (text : string) :
  Contains text (LF ++ LF ++ LF) = false ->
  Contains text "[[MATCHA_" = false ->
  (forall l, In l (Split text LF) -> isHeader l = false /\ isQuoted l = false) ->
  finalize text quoteData = text.
Proof.
  intros Hnl Hmark Hlines. unfold finalize.
  rewrite (collapse_id _ _ Hnl).
  assert (He : expandImageRowPlaceholders text = text).
  { exact (marker_absent "[[MATCHA_" "IMG_ROWS:" "]" "]" _ digit_close text Hmark). }
  rewrite He.
  assert (Hq : resolveQuotePlaceholders quoteData text = text).
  { exact (marker_absent "[[MATCHA_" "QUOTE:" "]" "]" _ digit_close text Hmark). }
  rewrite Hq. now apply styleQuotedReplies_benign.
Qed.

(** *** The passes over the document tree *)

Lemma node_induction (P : node -> Prop) :
  (forall data, P (TextNode data)) ->
  (forall data, P (OtherNode data)) ->
  (forall tag attr children,
      Forall P children -> P (ElementNode tag attr children)) ->
  forall n, P n.
Proof.
  intros Ht Ho He. fix IH 1. intros [data | data | tag attr children].
  - apply Ht.
  - apply Ho.
  - apply He. revert children. fix IHc 1. intros [|c cs].
    + constructor.
    + constructor; [apply IH | apply IHc].
Qed.

Lemma flat_map_id {A : Type} (f : A -> list A) (l : list A) :
  Forall (fun x => f x = [x]) l -> flat_map f l = l.
Proof.
  induction 1 as [|x l Hx _ IH]; [reflexivity |].
  cbn [flat_map]. now rewrite Hx, IH.
Qed.

Lemma flat_map_flat_map_nil {A B C : Type} (g : B -> list C) (h : A -> list B)
      (l : list A) :
  Forall (fun x => flat_map g (h x) = []) l -> flat_map g (flat_map h l) = [].
Proof.
  induction 1 as [|x l Hx _ IH]; [reflexivity |].
  cbn [flat_map]. now rewrite flat_map_app, Hx, IH.
Qed.

Lemma flat_map_Forall_ext {A B : Type} (f g : A -> list B) (l : list A) :
  Forall (fun x => f x = g x) l -> flat_map f l = flat_map g l.
Proof.
  induction 1 as [|x l Hx _ IH]; [reflexivity |].
  cbn [flat_map]. now rewrite Hx, IH.
Qed.

Lemma eachNode_removed (m : option (list string)) (n : node) : forall parent,
  flat_map (matchAllNode m)
    (eachNode (fun _ tag _ _ => if matches m tag then Some [] else None) parent n)
  = [].
Proof.
  induction n as [data | data | tag attr children IH] using node_induction;
    intros parent; try reflexivity.
  cbn [eachNode]. destruct (matches m tag) eqn:Hm; [reflexivity |].
  cbn [flat_map matchAllNode]. rewrite Hm, app_nil_r. cbn [app].
  apply flat_map_flat_map_nil.
  eapply Forall_impl; [| exact IH]. intros c Hc. apply Hc.
Qed.

Lemma matchAllNode_none_inside (m : option (list string)) (tag : string)
      (attr : list (string * string)) (children : list node) :
  matchAllNode m (ElementNode tag attr children) = [] ->
  matches m tag = false /\ Forall (fun c => matchAllNode m c = []) children.
Proof.
  cbn [matchAllNode]. destruct (matches m tag); [discriminate |].
  cbn [app]. intros H. split; [reflexivity |].
  induction children as [|c cs IH]; [constructor |].
  cbn [flat_map] in H. apply app_eq_nil in H as [Hc Hcs].
  constructor; [exact Hc | exact (IH Hcs)].
Qed.

Lemma eachNode_untouched (m : option (list string)) (n : node) : forall parent,
  matchAllNode m n = [] ->
  eachNode (fun _ tag _ _ => if matches m tag then Some [] else None) parent n
  = [n].
Proof.
  induction n as [data | data | tag attr children IH] using node_induction;
    intros parent H; try reflexivity.
  apply matchAllNode_none_inside in H as [Hm Hc].
  cbn [eachNode]. rewrite Hm. do 2 f_equal.
  apply flat_map_id. rewrite Forall_forall in IH, Hc |- *.
  intros c Hin. now apply IH, Hc.
Qed.

(** X7: after [doc.Find("style, script").Remove()] the document holds no
    [style] and no [script] element, at any depth; a document without such
    elements is left as it is. *)
Theorem removeStyleScript_removes_all (doc : list node) :
  (forall tag, matches (compileMatcher "style, script") tag
               = (tag =? "style") || (tag =? "script")) /\
  MatchAll (compileMatcher "style, script") (removeStyleScript doc) = [] /\
  (MatchAll (compileMatcher "style, script") doc = [] ->
   removeStyleScript doc = doc).
Proof.
  split; [| split].
  - intros tag. change (compileMatcher "style, script") with (Some ["style"; "script"]).
    cbn [matches existsb]. rewrite orb_false_r.
    now rewrite (String.eqb_sym "style"), (String.eqb_sym "script").
  - unfold MatchAll, removeStyleScript, Each.
    apply flat_map_flat_map_nil, Forall_forall. intros n _.
    apply eachNode_removed.
  - unfold MatchAll, removeStyleScript, Each. intros H.
    apply flat_map_id, Forall_forall. intros n Hin.
    apply eachNode_untouched.
    induction doc as [|d doc IH]; [contradiction |].
    cbn [flat_map] in H. apply app_eq_nil in H as [Hd Hdoc].
    destruct Hin as [<- | Hin]; [exact Hd | now apply IH].
Qed.

Lemma afterNode_nothing (targets : option (list string)) (n : node) :
  afterNode targets [] n = [n].
Proof.
  induction n as [data | data | tag attr children IH] using node_induction;
    try reflexivity.
  cbn [afterNode]. rewrite (flat_map_id _ _ IH).
  now destruct (matches targets tag).
Qed.

Lemma matchAllNode_invalid (n : node) : matchAllNode None n = [].
Proof.
  induction n as [data | data | tag attr children IH] using node_induction;
    try reflexivity.
  cbn [matchAllNode matches app].
  apply flat_map_nil. rewrite Forall_forall in IH. exact IH.
Qed.

(** X8: the pass [doc.Find("p, div, h1, h2").Each(... s.After("\n\n"))]
    leaves the document as it is.  [After] reads its argument as a
    selector; two newlines are no selector, the matcher compiled for them
    selects no node, and nothing is put behind the blocks. *)
Theorem spaceBlocks_inserts_nothing (doc : list node) :
  compileMatcher (LF ++ LF) = None /\
  MatchAll (compileMatcher (LF ++ LF)) doc = [] /\
  spaceBlocks doc = doc.
Proof.
  assert (Hnone : MatchAll (compileMatcher (LF ++ LF)) doc = []).
  { change (compileMatcher (LF ++ LF)) with (@None (list string)).
    apply flat_map_nil. intros n _. apply matchAllNode_invalid. }
  split; [reflexivity |]. split; [exact Hnone |].
  unfold spaceBlocks. rewrite Hnone.
  apply flat_map_id, Forall_forall. intros n _. apply afterNode_nothing.
Qed.

Lemma eachNode_ext (f g : string -> string -> list (string * string) -> list node
                          -> option (list node)) :
  (forall parent tag attr children,
      f parent tag attr children = g parent tag attr children) ->
  forall n parent, eachNode f parent n = eachNode g parent n.
Proof.
  intros Hfg.
  induction n as [data | data | tag attr children IH] using node_induction;
    intros parent; try reflexivity.
  cbn [eachNode]. rewrite Hfg. destruct (g parent tag attr children); [reflexivity |].
  do 2 f_equal. apply flat_map_Forall_ext.
  eapply Forall_impl; [| exact IH]. intros c Hc. apply Hc.
Qed.

Lemma Each_ext f g (doc : list node) :
  (forall parent tag attr children,
      f parent tag attr children = g parent tag attr children) ->
  Each f doc = Each g doc.
Proof.
  intros Hfg. unfold Each. apply flat_map_Forall_ext, Forall_forall.
  intros n _. now apply eachNode_ext.
Qed.

Lemma imageMarkup_without_protocol (inline : option (list (string * string)))
      (disableImages : bool) (src alt : string) :
  disableImages = true \/ imageProtocolSupported = false ->
  imageMarkup inline disableImages src alt = imageMarkup None true src alt.
Proof.
  intros [-> | H]; [reflexivity |].
  unfold imageMarkup. rewrite H, andb_false_r. reflexivity.
Qed.

Lemma transform_without_protocol (doc : list node)
      (inline : option (list (string * string)))
      (h1Style h2Style : string -> string) (disableImages : bool) :
  disableImages = true \/ imageProtocolSupported = false ->
  transform doc inline h1Style h2Style disableImages
  = transform doc None h1Style h2Style true.
Proof.
  intros H. unfold transform.
  destruct (extractQuotes _) as [doc' quoteData].
  unfold rewriteImages.
  rewrite (Each_ext (imageRule inline disableImages) (imageRule None true));
    [reflexivity |].
  intros parent tag attr children. unfold imageRule.
  destruct (matches _ tag); [| reflexivity].
  destruct (Attr attr "src"); [| reflexivity].
  now rewrite (imageMarkup_without_protocol inline disableImages _ _ H).
Qed.

Lemma processBody_without_protocol (rawBody : string)
      (inline : option (list (string * string)))
      (h1Style h2Style bodyStyle : string -> string) (disableImages : bool) :
  disableImages = true \/ imageProtocolSupported = false ->
  processBody rawBody inline h1Style h2Style bodyStyle disableImages
  = processBody rawBody None h1Style h2Style bodyStyle true.
Proof.
  intros H. unfold processBody.
  destruct (NewDocumentFromReader _) as [doc |]; [| reflexivity].
  now rewrite (transform_without_protocol doc inline h1Style h2Style disableImages H).
Qed.

(** X9: with images disabled, or on a terminal where no image protocol is
    detected, the inline parts of the message play no role: the render
    with them is the render without them. *)
Theorem inline_parts_ignored_without_protocol
        (rawBody : string) (inline : list InlineImage)
        (h1Style h2Style bodyStyle : string -> string) (disableImages : bool) :
  disableImages = true \/ imageProtocolSupported = false ->
  ProcessBodyWithInline rawBody inline h1Style h2Style bodyStyle disableImages
  = ProcessBody rawBody h1Style h2Style bodyStyle disableImages.
Proof.
  intros H. unfold ProcessBodyWithInline, ProcessBody.
  rewrite (processBody_without_protocol rawBody (Some _) _ _ _ _ H).
  now rewrite (processBody_without_protocol rawBody None _ _ _ _ H).
Qed.

Lemma quoteNode_records (n : node) : forall parent before quoteData,
  exists records,
    snd (quoteNode n parent before quoteData) = (quoteData ++ records)%list /\
    List.length records
    = List.length (matchAllNode (compileMatcher "blockquote") n).
Proof.
  induction n as [data | data | tag attr children IH] using node_induction;
    intros parent before quoteData.
  - exists []. cbn. now rewrite app_nil_r.
  - exists []. cbn. now rewrite app_nil_r.
  - cbn [quoteNode].
    set (visit :=
           fix visit (todo before0 : list node) (quoteData0 : list quote)
             {struct todo} : list node * list quote :=
             match todo with
             | [] => (before0, quoteData0)
             | m :: rest0 =>
                 let '(before1, quoteData1) := quoteNode m tag before0 quoteData0 in
                 visit rest0 before1 quoteData1
             end).
    assert (Hvisit : forall todo,
               Forall (fun n => forall parent before quoteData,
                         exists records,
                           snd (quoteNode n parent before quoteData)
                           = (quoteData ++ records)%list /\
                           List.length records
                           = List.length (matchAllNode (compileMatcher "blockquote") n))
                      todo ->
               forall before0 quoteData0,
               exists records,
                 snd (visit todo before0 quoteData0) = (quoteData0 ++ records)%list /\
                 List.length records
                 = List.length (flat_map (matchAllNode (compileMatcher "blockquote")) todo)).
    { induction 1 as [|x l Hx _ IHl]; intros before0 quoteData0.
      - exists []. cbn. now rewrite app_nil_r.
      - cbn [visit]. destruct (Hx tag before0 quoteData0) as (r1 & H1 & L1).
        destruct (quoteNode x tag before0 quoteData0) as [before1 quoteData1].
        cbn [snd] in H1. subst quoteData1.
        destruct (IHl before1 (quoteData0 ++ r1)%list) as (r2 & H2 & L2).
        exists (r1 ++ r2)%list. split.
        + now rewrite H2, app_assoc.
        + cbn [flat_map]. rewrite !length_app. lia. }
    cbn [matchAllNode].
    destruct (matches (compileMatcher "blockquote") tag).
    + assert (Hquote : forall from date removePrev,
                 exists records,
                   snd (let '(_, quoteData0) :=
                          visit children []
                            (quoteData ++ [mkQuote from date (TrimSpace (Text children))])%list in
                        (List.rev_append
                           (ParseFragment parent
                              (quotePlaceholder
                                 (Z.of_nat
                                    (List.length
                                       (quoteData
                                        ++ [mkQuote from date (TrimSpace (Text children))])%list)
                                  - 1)))
                           (if removePrev : bool then removePrevElement before else before),
                         quoteData0))
                   = (quoteData ++ records)%list /\
                   List.length records
                   = List.length
                       ([ElementNode tag attr children]
                        ++ flat_map (matchAllNode (compileMatcher "blockquote")) children)%list).
      { intros from date removePrev.
        destruct (Hvisit children IH []
                    (quoteData ++ [mkQuote from date (TrimSpace (Text children))])%list)
          as (r & Hr & Lr).
        destruct (visit children [] _) as [before' quoteData'].
        cbn [snd] in Hr |- *. subst quoteData'.
        exists (mkQuote from date (TrimSpace (Text children)) :: r). split.
        - now rewrite <- app_assoc.
        - cbn [app List.length]. now rewrite Lr. }
      destruct (FindStringSubmatch onWroteRegex
                  match prevElement before with
                  | Some prev => TrimSpace (nodeText prev)
                  | None => ""
                  end) as [ms |];
        [exact (Hquote (nth 2 ms "") (parseDateForDisplay (nth 1 ms "")) true) |].
      destruct (FindStringSubmatch onWroteRegex (AttrOr attr "cite")) as [ms |];
        [exact (Hquote (nth 2 ms "") (parseDateForDisplay (nth 1 ms "")) false) |].
      exact (Hquote "" "" false).
    + destruct (Hvisit children IH [] quoteData) as (r & Hr & Lr).
      destruct (visit children [] quoteData) as [children' quoteData'].
      cbn [snd] in Hr |- *. subst quoteData'.
      exists r. split; [reflexivity | exact Lr].
Qed.

Lemma quoteNodes_records : forall todo before quoteData,
  exists records,
    snd (quoteNodes todo before quoteData) = (quoteData ++ records)%list /\
    List.length records
    = List.length (MatchAll (compileMatcher "blockquote") todo).
Proof.
  induction todo as [|n todo IH]; intros before quoteData.
  - exists []. cbn. now rewrite app_nil_r.
  - cbn [quoteNodes].
    destruct (quoteNode_records n "" before quoteData) as (r1 & H1 & L1).
    destruct (quoteNode n "" before quoteData) as [before1 quoteData1].
    cbn [snd] in H1. subst quoteData1.
    destruct (IH before1 (quoteData ++ r1)%list) as (r2 & H2 & L2).
    exists (r1 ++ r2)%list. split.
    + now rewrite H2, app_assoc.
    + unfold MatchAll in *. cbn [flat_map]. rewrite !length_app. lia.
Qed.

(** X10: the blockquote pass keeps one record for every [blockquote]
    element of the document, those inside other blockquotes included. *)
Theorem extractQuotes_one_record_per_blockquote (doc : list node) :
  List.length (snd (extractQuotes doc))
  = List.length (MatchAll (compileMatcher "blockquote") doc).
Proof.
  unfold extractQuotes.
  destruct (quoteNodes_records doc [] []) as (r & Hr & Lr).
  rewrite Hr. exact Lr.
Qed.

(** *** From the parts of a message to its images *)

Example EncodeToString_ex :
  base64.EncodeToString "" = "" /\ base64.EncodeToString "f" = "Zg==" /\
  base64.EncodeToString "fo" = "Zm8=" /\ base64.EncodeToString "foo" = "Zm9v" /\
  base64.EncodeToString "foob" = "Zm9vYg==" /\
  base64.EncodeToString "fooba" = "Zm9vYmE=" /\
  base64.EncodeToString "foobar" = "Zm9vYmFy" /\
  base64.EncodeToString (bytes [255; 239; 190]) = "/+++".
Proof. repeat split. Qed.

Lemma sextet_base64 (n : nat) : base64Byte (base64.sextet n) = true.
Proof. do 64 (destruct n as [|n]; [reflexivity |]). reflexivity. Qed.

Lemma EncodeToString_base64 : forall src,
  allOf base64Byte (base64.EncodeToString src) = true.
Proof.
  fix IH 1. intros [|a [|b [|c rest]]]; cbn [base64.EncodeToString allOf];
    rewrite ?sextet_base64; try reflexivity.
  apply IH.
Qed.

Lemma EncodeToString_nonempty (src : string) :
  src <> "" -> base64.EncodeToString src <> "".
Proof. destruct src as [|a [|b [|c rest]]]; [congruence | discriminate ..]. Qed.

Lemma TrimLeft_head (cutset s : string) :
  match TrimLeft s cutset with
  | String a _ => inCutset a cutset = false
  | EmptyString => True
  end.
Proof.
  induction s as [|a s IH]; cbn [TrimLeft]; [exact I |].
  destruct (inCutset a cutset) eqn:Ha; [exact IH | exact Ha].
Qed.

Lemma TrimLeft_fixed (cutset s : string) :
  match s with
  | String a _ => inCutset a cutset = false
  | EmptyString => True
  end -> TrimLeft s cutset = s.
Proof. destruct s as [|a s]; cbn [TrimLeft]; [reflexivity | now intros ->]. Qed.

Lemma TrimLeft_suffix (cutset s : string) : exists p, s = p ++ TrimLeft s cutset.
Proof.
  induction s as [|a s [p Hp]]; [now exists "" |].
  cbn [TrimLeft]. destruct (inCutset a cutset); [| now exists ""].
  exists (String a p). cbn. now f_equal.
Qed.

(** What [strings.Trim] returns neither starts nor ends with a byte of
    the cutset. *)
Lemma Trim_ends (cutset s : string) :
  match Trim s cutset with
  | String a _ => inCutset a cutset = false
  | EmptyString => True
  end /\
  match rev (Trim s cutset) with
  | String a _ => inCutset a cutset = false
  | EmptyString => True
  end.
Proof.
  unfold Trim, TrimRight. set (t := TrimLeft s cutset).
  rewrite rev_involutive. split; [| apply TrimLeft_head].
  destruct (TrimLeft_suffix cutset (rev t)) as [p Hp].
  assert (Ht : t = rev (TrimLeft (rev t) cutset) ++ rev p).
  { rewrite <- (rev_involutive t) at 1. rewrite Hp at 1. apply rev_append. }
  pose proof (TrimLeft_head cutset s) as Hhead. fold t in Hhead.
  destruct (rev (TrimLeft (rev t) cutset)) as [|a c]; [exact I |].
  rewrite Ht in Hhead. exact Hhead.
Qed.

Lemma Trim_fixed (cutset c : string) :
  match c with
  | String a _ => inCutset a cutset = false
  | EmptyString => True
  end ->
  match rev c with
  | String a _ => inCutset a cutset = false
  | EmptyString => True
  end ->
  Trim c cutset = c.
Proof.
  intros Hl Hr. unfold Trim, TrimRight.
  rewrite (TrimLeft_fixed cutset c Hl), (TrimLeft_fixed cutset (rev c) Hr).
  apply rev_involutive.
Qed.

Lemma inlineImagesFromAttachments_snoc (atts : list fetcher.Attachment)
      (att : fetcher.Attachment) :
  fetcher.Inline att = true -> fetcher.Data att <> "" ->
  fetcher.ContentID att <> "" ->
  inlineImagesFromAttachments (atts ++ [att])
  = (inlineImagesFromAttachments atts
     ++ [mkInlineImage (fetcher.ContentID att)
           (base64.EncodeToString (fetcher.Data att))])%list.
Proof.
  intros Hi Hd Hc. unfold inlineImagesFromAttachments.
  rewrite fold_left_app. cbn [fold_left]. rewrite Hi.
  rewrite (proj2 (String.eqb_neq _ _) Hc).
  destruct (fetcher.Data att) as [|a d]; [congruence | reflexivity].
Qed.

(** X11: an inline part with data whose Content-ID, as the fetcher stores
    it (without the angle brackets around it), is not empty, carries no
    space at its ends and does not start with [cid:], is found under that
    id: the image [cid:ID] of the body gets the base64 of the data of the
    last such part, and where an image protocol is detected it is drawn
    from it. *)
Theorem inline_attachment_is_found
        (atts : list fetcher.Attachment) (att : fetcher.Attachment)
        (partId alt : string) :
  let c := fetcher.ContentID att in
  let payload := base64.EncodeToString (fetcher.Data att) in
  let inline := inlineMap (inlineImagesFromAttachments (atts ++ [att])) in
  c = Trim partId "<>" ->
  fetcher.Inline att = true -> fetcher.Data att <> "" ->
  c <> "" -> TrimSpace c = c -> HasPrefix c "cid:" = false ->
  payload <> "" /\ allOf base64Byte payload = true /\
  mapGet inline (Trim (TrimPrefix ("cid:" ++ c) "cid:") "<>") = payload /\
  (imageProtocolSupported = true ->
   renderInlineImage payload <> "" /\
   imageMarkup (Some inline) false ("cid:" ++ c) alt
   = LF ++ renderInlineImage payload ++ LF).
Proof.
  intros c payload inline Hid Hin Hdata Hne Hspace Hcid.
  assert (Hpay : payload <> "") by now apply EncodeToString_nonempty.
  destruct (Trim_ends "<>" partId) as [Hl Hr]. rewrite <- Hid in Hl, Hr.
  assert (Hkey : Trim (TrimPrefix ("cid:" ++ c) "cid:") "<>" = c).
  { rewrite TrimPrefix_append. now apply Trim_fixed. }
  assert (Hget : mapGet inline c = payload).
  { unfold inline. rewrite (inlineImagesFromAttachments_snoc atts att Hin Hdata Hne).
    unfold inlineMap. rewrite fold_left_app. cbn [fold_left CID Base64].
    fold c. fold payload. rewrite Hspace.
    assert (H1 : TrimPrefix c "<" = c).
    { unfold TrimPrefix. destruct c as [|a c']; [reflexivity |].
      cbn [HasPrefix]. cbn [inCutset] in Hl.
      apply orb_false_iff in Hl as [Hl _].
      rewrite Ascii.eqb_sym, Hl. reflexivity. }
    rewrite H1.
    assert (H2 : TrimSuffix c ">" = c).
    { unfold TrimSuffix, HasSuffix. change (rev ">") with ">".
      destruct (rev c) as [|a c']; [reflexivity |].
      cbn [HasPrefix]. cbn [inCutset] in Hr.
      apply orb_false_iff in Hr as [_ Hr]. apply orb_false_iff in Hr as [Hr _].
      rewrite Ascii.eqb_sym, Hr. reflexivity. }
    rewrite H2.
    assert (H3 : TrimPrefix c "cid:" = c) by (unfold TrimPrefix; now rewrite Hcid).
    rewrite H3.
    rewrite (proj2 (String.eqb_neq _ _) Hne), (proj2 (String.eqb_neq _ _) Hpay).
    cbn [orb]. cbv iota. cbn [mapGet]. now rewrite String.eqb_refl. }
  split; [exact Hpay |]. split; [apply EncodeToString_base64 |].
  split; [now rewrite Hkey |].
  intros Hproto.
  pose proof (renderInlineImage_supported payload Hpay Hproto) as Hrender.
  split; [exact Hrender |].
  unfold imageMarkup. rewrite Hproto. cbn [negb andb].
  change (HasPrefix ("cid:" ++ c) "data:image/") with false. cbv iota.
  rewrite HasPrefix_append, Hkey, Hget.
  now rewrite (nonEmpty_true _ Hpay), (nonEmpty_true _ Hrender).
Qed.

(** *** The accounts of the configuration (package config) *)

Lemma firstIndex_none (test : config.Account -> bool) (l : list config.Account) :
  config.firstIndex test l = None <-> (forall a, In a l -> test a = false).
Proof.
  induction l as [|x l IH]; cbn [config.firstIndex].
  - split; [intros _ a [] | reflexivity].
  - destruct (test x) eqn:Hx.
    + split; [discriminate |]. intros H. rewrite (H x) in Hx by now left.
      discriminate.
    + destruct (config.firstIndex test l) as [i |]; cbn [option_map].
      * split; [discriminate |]. intros H.
        assert (Hn : Some i = None)
          by (apply IH; intros a Ha; apply H; now right).
        discriminate Hn.
      * split; [| reflexivity]. intros _ a [<- | Ha]; [exact Hx |].
        now apply (proj1 IH).
Qed.

Lemma firstIndex_split (test : config.Account -> bool) :
  forall (l : list config.Account) (i : nat),
  config.firstIndex test l = Some i ->
  exists l1 a l2,
    l = (l1 ++ a :: l2)%list /\ List.length l1 = i /\ test a = true /\
    (forall b, In b l1 -> test b = false).
Proof.
  induction l as [|x l IH]; intros i H; [discriminate |].
  cbn [config.firstIndex] in H. destruct (test x) eqn:Hx.
  - injection H as <-. exists [], x, l. repeat split; [exact Hx | intros b []].
  - destruct (config.firstIndex test l) as [j |]; [| discriminate].
    injection H as <-. destruct (IH j eq_refl) as (l1 & a & l2 & -> & <- & Ha & Hl1).
    exists (x :: l1), a, l2. repeat split; [exact Ha |].
    intros b [<- | Hb]; [exact Hx | now apply Hl1].
Qed.

Lemma firstIndex_first (test : config.Account -> bool)
      (l1 : list config.Account) (a : config.Account) (l2 : list config.Account) :
  (forall b, In b l1 -> test b = false) -> test a = true ->
  config.firstIndex test (l1 ++ a :: l2) = Some (List.length l1).
Proof.
  intros Hl1 Ha. induction l1 as [|x l1 IH]; cbn [app config.firstIndex List.length].
  - now rewrite Ha.
  - rewrite (Hl1 x) by now left. rewrite IH by (intros b Hb; apply Hl1; now right).
    reflexivity.
Qed.

(** The account a lookup points to is the first that passes the test. *)
Lemma deref_find (test : config.Account -> bool) (l : list config.Account) :
  match config.firstIndex test l with
  | Some i => nth_error l i
  | None => None
  end = find test l.
Proof.
  induction l as [|x l IH]; [reflexivity |].
  cbn [config.firstIndex find]. destruct (test x); [reflexivity |].
  rewrite <- IH. now destruct (config.firstIndex test l).
Qed.

Lemma find_skip (test : config.Account -> bool)
      (l1 : list config.Account) (a : config.Account) (l2 : list config.Account) :
  test a = false -> find test (l1 ++ a :: l2) = find test (l1 ++ l2).
Proof.
  intros Ha. induction l1 as [|x l1 IH]; cbn [app find].
  - now rewrite Ha.
  - now rewrite IH.
Qed.

Lemma firstIndex_app (test : config.Account -> bool)
      (l l' : list config.Account) :
  config.firstIndex test (l ++ l')
  = match config.firstIndex test l with
    | Some i => Some i
    | None => option_map (Nat.add (List.length l)) (config.firstIndex test l')
    end.
Proof.
  induction l as [|x l IH]; cbn [app config.firstIndex List.length].
  - destruct (config.firstIndex test l'); reflexivity.
  - destruct (test x); [reflexivity |]. rewrite IH.
    destruct (config.firstIndex test l); [reflexivity |].
    now destruct (config.firstIndex test l').
Qed.

(** X12: [AddAccount] puts the account behind the others.  Lookups that
    found an account find the same one afterwards; when no account had the
    id of the new one (its own, or the fresh one it gets when it has
    none), [GetAccountByID] finds the new account, whose FetchEmail is its
    login address when none was given. *)
Theorem AddAccount_then_GetAccountByID
        (c : config.Config) (account : config.Account) (uuid : string) :
  let id := if config.ID account =? "" then uuid else config.ID account in
  let c' := config.AddAccount c account uuid in
  config.HasAccounts c' = true /\
  List.length (config.Accounts c') = S (List.length (config.Accounts c)) /\
  (forall id' found,
     config.deref c (config.GetAccountByID c id') = Some found ->
     config.GetAccountByID c' id' = config.GetAccountByID c id' /\
     config.deref c' (config.GetAccountByID c' id') = Some found) /\
  (config.GetAccountByID c id = None ->
   config.GetAccountByID c' id = Some (List.length (config.Accounts c)) /\
   exists added,
     config.deref c' (config.GetAccountByID c' id) = Some added /\
     config.ID added = id /\
     config.Email added = config.Email account /\
     config.FetchEmail added
     = (if config.FetchEmail account =? ""
        then config.Email account else config.FetchEmail account)).
Proof.
  cbv zeta. unfold config.AddAccount, config.HasAccounts, config.GetAccountByID,
    config.deref. cbn [config.Accounts].
  set (account1 := if config.ID account =? "" then _ else account).
  set (added := if (config.FetchEmail account1 =? "") && _ then _ else account1).
  assert (Hid : config.ID added
                = if config.ID account =? "" then uuid else config.ID account).
  { unfold added, account1.
    destruct (config.ID account =? ""); cbn [config.FetchEmail config.withID];
      destruct ((config.FetchEmail account =? "") && _); reflexivity. }
  assert (Hmail : config.Email added = config.Email account).
  { unfold added, account1.
    destruct (config.ID account =? ""); cbn [config.FetchEmail config.Email config.withID];
      destruct ((config.FetchEmail account =? "") && _); reflexivity. }
  assert (Hfetch : config.FetchEmail added
                   = if config.FetchEmail account =? ""
                     then config.Email account else config.FetchEmail account).
  { unfold added, account1.
    destruct (config.ID account =? "");
      cbn [config.FetchEmail config.Email config.withID];
      destruct (String.eqb_spec (config.FetchEmail account) "") as [He | He];
      destruct (String.eqb_spec (config.Email account) "") as [Hm | Hm];
      cbn [andb negb config.FetchEmail config.withFetchEmail config.withID];
      congruence. }
  rewrite length_app. cbn [List.length].
  split; [apply Nat.ltb_lt; lia |]. split; [lia |]. split.
  - intros id' found Hfound. rewrite firstIndex_app.
    destruct (config.firstIndex _ (config.Accounts c)) as [i |] eqn:Hi;
      [| discriminate].
    split; [reflexivity |].
    rewrite nth_error_app1; [exact Hfound |].
    apply nth_error_Some. congruence.
  - intros Hnone. rewrite firstIndex_app, Hnone.
    cbn [config.firstIndex option_map]. rewrite Hid, String.eqb_refl.
    cbn [option_map]. rewrite Nat.add_0_r. split; [reflexivity |].
    exists added. rewrite nth_error_app2, Nat.sub_diag by lia.
    repeat split; assumption.
Qed.

(** X13: [RemoveAccount] answers false and changes nothing when no account
    has the id; otherwise it takes out the first account with the id and
    keeps the others in their order.  Lookups of other ids are not
    affected; when the ids of the accounts are distinct the id is not found
    afterwards. *)
Theorem RemoveAccount_removes_first (c : config.Config) (id : string) :
  let c' := fst (config.RemoveAccount c id) in
  let removed := snd (config.RemoveAccount c id) in
  config.DisableImages c' = config.DisableImages c /\
  (removed = false <-> forall a, In a (config.Accounts c) -> config.ID a <> id) /\
  (removed = false -> c' = c) /\
  (removed = true ->
   exists l1 a l2,
     config.Accounts c = (l1 ++ a :: l2)%list /\ config.ID a = id /\
     (forall b, In b l1 -> config.ID b <> id) /\
     config.Accounts c' = (l1 ++ l2)%list) /\
  (forall id', id' <> id ->
     config.deref c' (config.GetAccountByID c' id')
     = config.deref c (config.GetAccountByID c id')) /\
  (NoDup (map config.ID (config.Accounts c)) ->
   config.GetAccountByID c' id = None).
Proof.
  cbv zeta. unfold config.RemoveAccount, config.GetAccountByID, config.deref.
  destruct (config.firstIndex (fun acc => config.ID acc =? id) (config.Accounts c))
    as [i |] eqn:Hi; cbn [fst snd config.Accounts config.DisableImages].
  - destruct (firstIndex_split _ _ _ Hi) as (l1 & a & l2 & Hl & Hlen & Ha & Hl1).
    apply String.eqb_eq in Ha.
    assert (Hrest : (firstn i (config.Accounts c) ++ skipn (i + 1) (config.Accounts c))%list
                    = (l1 ++ l2)%list).
    { rewrite Hl, <- Hlen. rewrite firstn_app, Nat.sub_diag, firstn_all.
      cbn [firstn]. rewrite app_nil_r.
      rewrite skipn_app, skipn_all2 by lia.
      replace (List.length l1 + 1 - List.length l1) with 1 by lia. reflexivity. }
    rewrite Hrest.
    assert (Hl1' : forall b, In b l1 -> config.ID b <> id).
    { intros b Hb. apply String.eqb_neq. now apply Hl1. }
    split; [reflexivity |]. split.
    { split; [discriminate |]. intros H. exfalso. apply (H a); [| exact Ha].
      rewrite Hl. apply in_or_app. right. now left. }
    split; [discriminate |]. split.
    { intros _. exists l1, a, l2. repeat split; assumption. }
    split.
    + intros id' Hne.
      rewrite (deref_find (fun acc => config.ID acc =? id') (l1 ++ l2)).
      rewrite (deref_find (fun acc => config.ID acc =? id') (config.Accounts c)).
      rewrite Hl. symmetry. apply find_skip. apply String.eqb_neq. congruence.
    + intros Hnd. apply firstIndex_none. intros b Hb. apply String.eqb_neq.
      apply in_app_or in Hb as [Hb | Hb]; [now apply Hl1' |].
      rewrite Hl, map_app in Hnd. cbn [map] in Hnd.
      apply NoDup_remove_2 in Hnd. intros Heq. apply Hnd.
      apply in_or_app. right. rewrite Ha, <- Heq. now apply in_map.
  - pose proof (proj1 (firstIndex_none _ _) Hi) as Hnone.
    split; [reflexivity |]. split.
    { split; [| reflexivity]. intros _ a Ha. apply String.eqb_neq. now apply Hnone. }
    split; [reflexivity |]. split; [discriminate |].
    split; [reflexivity |]. intros _. exact Hi.
Qed.

(** X14: the port of an account is never 0, and fixed for gmail and
    icloud whatever the custom settings say; the server name is empty, the
    case in which [connect] and [SendEmail] refuse the account, exactly for
    a provider that is none of gmail, icloud and custom, and for a custom
    account without a server. *)
Theorem account_endpoints (a : config.Account) :
  config.GetIMAPPort a <> 0%Z /\ config.GetSMTPPort a <> 0%Z /\
  (config.ServiceProvider a <> "custom" ->
   config.GetIMAPPort a = 993%Z /\ config.GetSMTPPort a = 587%Z) /\
  (config.GetIMAPServer a = "" <->
   config.ServiceProvider a <> "gmail" /\ config.ServiceProvider a <> "icloud" /\
   (config.ServiceProvider a = "custom" -> config.IMAPServer a = "")) /\
  (config.GetSMTPServer a = "" <->
   config.ServiceProvider a <> "gmail" /\ config.ServiceProvider a <> "icloud" /\
   (config.ServiceProvider a = "custom" -> config.SMTPServer a = "")).
Proof.
  unfold config.GetIMAPPort, config.GetSMTPPort, config.GetIMAPServer,
    config.GetSMTPServer.
  destruct (String.eqb_spec (config.ServiceProvider a) "gmail") as [Hg | Hg];
    destruct (String.eqb_spec (config.ServiceProvider a) "icloud") as [Hi | Hi];
    destruct (String.eqb_spec (config.ServiceProvider a) "custom") as [Hc | Hc];
    destruct (Z.eqb_spec (config.IMAPPort a) 0);
    destruct (Z.eqb_spec (config.SMTPPort a) 0);
    cbn [orb negb];
    repeat split; try congruence; try lia; try discriminate;
    try (intros; congruence);
    try (intros (H1 & H2 & H3); congruence);
    try (intros (H1 & H2 & H3); now apply H3);
    try (intros H; exfalso; congruence).
Qed.

(** *** The lines of a base64 body (package sender) *)

Lemma wrapLoop_lines (fuel : nat) : forall data i,
  i < len data -> len data - i <= fuel ->
  exists (lines : list string) (final : string),
    Join (lines ++ [final]) "" = drop i data /\
    (forall l, In l lines -> len l = 76) /\
    1 <= len final <= 76 /\
    sender.wrapLoop fuel data i = Join (lines ++ [final]) sender.CRLF.
Proof.
  induction fuel as [|fuel IH]; intros data i Hi Hfuel; [lia |].
  cbn [sender.wrapLoop]. rewrite (proj2 (Nat.ltb_lt _ _) Hi).
  unfold sender.lineLength, slice.
  destruct (Nat.ltb_spec (i + 76) (len data)) as [Hmore | Hlast].
  - rewrite (proj2 (Nat.ltb_ge _ _)) by lia.
    rewrite (proj2 (Nat.ltb_lt _ _) Hmore).
    destruct (IH data (i + 76) Hmore ltac:(lia)) as (lines & final & Hj & Hl & Hf & Hw).
    exists (take 76 (drop i data) :: lines), final.
    replace (i + 76 - i) with 76 by lia.
    assert (Hne : (lines ++ [final])%list <> []) by (now destruct lines).
    split; [| split; [| split]].
    + cbn [app]. rewrite (Join_cons _ _ _ Hne), Hj. cbn [append].
      rewrite <- (drop_drop 76 i data). apply take_drop.
    + intros l [<- | Hin]; [| now apply Hl].
      rewrite len_take, len_drop. lia.
    + exact Hf.
    + cbn [app]. rewrite (Join_cons _ _ _ Hne), Hw. reflexivity.
  - exists [], (drop i data).
    assert (Hend : (if Nat.ltb (len data) (i + 76) then len data else i + 76)
                   = len data).
    { destruct (Nat.ltb_spec (len data) (i + 76)); lia. }
    rewrite Hend, Nat.ltb_irrefl.
    assert (Hrest : sender.wrapLoop fuel data (i + 76) = "").
    { destruct fuel; [reflexivity |]. cbn [sender.wrapLoop].
      now rewrite (proj2 (Nat.ltb_ge _ _)) by (unfold sender.lineLength; lia). }
    unfold sender.lineLength in Hrest. rewrite Hrest.
    cbn [app Join append]. rewrite !append_nil_r.
    split; [reflexivity |]. split; [intros l [] |].
    split; [rewrite len_drop; lia |].
    apply take_all. rewrite len_drop. lia.
Qed.

(** X15: [wrapBase64] cuts its argument into lines of 76 bytes, the last
    of 1 to 76 bytes, joined by CR LF with none behind the last line; the
    lines put together again are the argument.  The empty argument gives
    the empty string. *)
Theorem wrapBase64_lines (data : string) :
  sender.wrapBase64 "" = "" /\
  (data <> "" ->
   exists (lines : list string) (final : string),
     Join (lines ++ [final]) "" = data /\
     (forall l, In l lines -> len l = 76) /\
     1 <= len final <= 76 /\
     sender.wrapBase64 data = Join (lines ++ [final]) sender.CRLF).
Proof.
  split; [reflexivity |]. intros Hne.
  assert (Hlen : 0 < len data) by (destruct data; [congruence | cbn; lia]).
  exact (wrapLoop_lines (len data) data 0 Hlen ltac:(lia)).
Qed.

(** *** Quoted lines without a header *)

Lemma no_byte_allOf (c : ascii) (s : string) :
  Contains s (String c "") = false ->
  allOf (fun x => negb (Ascii.eqb x c)) s = true.
Proof.
  induction s as [|x s IH]; intros H; [reflexivity |].
  cbn [Contains HasPrefix] in H. apply orb_false_iff in H as [Hx Hs].
  rewrite andb_true_r in Hx. cbn [allOf].
  rewrite Ascii.eqb_sym, Hx. cbn [negb andb]. now apply IH.
Qed.

Lemma SplitByte_single (c : ascii) (s : string) :
  allOf (fun x => negb (Ascii.eqb x c)) s = true -> SplitByte s c = [s].
Proof.
  induction s as [|x s IH]; intros H; [reflexivity |].
  cbn [allOf] in H. apply andb_true_iff in H as [Hx Hs].
  cbn [SplitByte]. apply negb_true_iff in Hx. rewrite Hx.
  now rewrite (IH Hs).
Qed.

Lemma Split_Join (lines : list string) :
  lines <> [] ->
  (forall l, In l lines -> Contains l LF = false) ->
  Split (Join lines LF) LF = lines.
Proof.
  intros Hne Hall. change (Split (Join lines LF) LF)
    with (SplitByte (Join lines LF) "010").
  induction lines as [|l lines IH]; [congruence |].
  destruct lines as [|l2 rest].
  - cbn [Join]. apply SplitByte_single, no_byte_allOf, Hall. now left.
  - rewrite Join_cons by discriminate.
    change (LF ++ ?x) with (String "010" x).
    rewrite SplitByte_block by (apply no_byte_allOf, Hall; now left).
    f_equal. apply IH; [discriminate |]. intros x Hx. apply Hall. now right.
Qed.

Lemma quoted_no_header (line : string) :
  isQuoted line = true ->
  FindStringSubmatch onWroteLineRegex (TrimSpace line) = None.
Proof.
  unfold isQuoted. intros H. apply not_On_no_header.
  destruct (TrimSpace line) as [|a s]; [discriminate |].
  cbn [HasPrefix] in H |- *. apply andb_true_iff in H as [Ha _].
  apply Ascii.eqb_eq in Ha. subst a. reflexivity.
Qed.

Lemma scanLines_quoted : forall lines st,
  quoteFrom st = "" -> quoteDate st = "" ->
  (forall l, In l lines -> isQuoted l = true) ->
  scanLines lines st
  = mkScan (result st)
      (quoteBlock st
       ++ map (fun l => TrimPrefix (TrimPrefix (TrimSpace l) ">") " ") lines)
      "" ""
      (match lines with [] => inQuote st | _ => true end).
Proof.
  induction lines as [|line after IH]; intros st Hf Hd Hall.
  - cbn [scanLines map]. rewrite app_nil_r. destruct st. cbn in *. congruence.
  - cbn [scanLines]. rewrite IH.
    + unfold scanLine. rewrite quoted_no_header by (apply Hall; now left).
      pose proof (Hall line (or_introl eq_refl)) as Hq. unfold isQuoted in Hq.
      rewrite Hq. cbn [result quoteBlock map]. rewrite <- app_assoc.
      now destruct after.
    + unfold scanLine. rewrite quoted_no_header by (apply Hall; now left).
      pose proof (Hall line (or_introl eq_refl)) as Hq. unfold isQuoted in Hq.
      rewrite Hq. cbn [quoteFrom]. rewrite Hf. now destruct (inQuote st).
    + unfold scanLine. rewrite quoted_no_header by (apply Hall; now left).
      pose proof (Hall line (or_introl eq_refl)) as Hq. unfold isQuoted in Hq.
      rewrite Hq. cbn [quoteDate]. rewrite Hd. now destruct (inQuote st).
    + intros l Hl. apply Hall. now right.
Qed.

(** X16: a text all of whose lines start, spaces apart, with [>] is
    rendered as one quote box without a header; the box holds the lines in
    their order, each without the space around it, the [>] and one space
    behind it. *)
Theorem quoted_lines_become_one_box (lines : list string) :
  lines <> [] ->
  (forall l, In l lines -> Contains l LF = false /\ isQuoted l = true) ->
  styleQuotedReplies (Join lines LF)
  = renderQuoteBox "" ""
      (map (fun l => TrimPrefix (TrimPrefix (TrimSpace l) ">") " ") lines).
Proof.
  intros Hne Hall. unfold styleQuotedReplies, styledLines.
  rewrite Split_Join by (try assumption; intros l Hl; now apply Hall).
  rewrite scanLines_quoted; try reflexivity; [| intros l Hl; now apply Hall].
  cbn [inQuote quoteBlock result quoteFrom quoteDate app].
  destruct lines as [|l rest]; [congruence |].
  cbn [map List.length andb Nat.ltb Nat.leb]. unfold flushQuote.
  cbn [result quoteFrom quoteDate quoteBlock app Join]. reflexivity.
Qed.

(** *** The source of an image *)

(** X17: where an image protocol is detected and images are not disabled,
    an image with a [data:image/] source is drawn from what follows the
    first comma of the source; a source that is neither such a data URI,
    nor a content id, nor an http(s) address has no payload and becomes
    the textual fallback. *)
Theorem image_source_dispatch
        (inline : option (list (string * string))) (alt : string) :
  imageProtocolSupported = true ->
  let shown := if alt =? "" then "Does not contain alt text" else alt in
  let fallback src :=
    if hyperlinkSupported
    then hyperlink src (LF ++ " [Click here to view image: " ++ shown ++ "] " ++ LF)
    else LF ++ " [Image: " ++ shown ++ ", " ++ src ++ "] " ++ LF in
  (forall meta payload,
     Contains meta "," = false -> payload <> "" ->
     imageMarkup inline false ("data:image/" ++ meta ++ "," ++ payload) alt
     = LF ++ renderInlineImage payload ++ LF) /\
  (forall meta,
     Contains meta "," = false ->
     imageMarkup inline false ("data:image/" ++ meta ++ ",") alt
     = fallback ("data:image/" ++ meta ++ ",")) /\
  (forall src,
     HasPrefix src "data:image/" = false -> HasPrefix src "cid:" = false ->
     HasPrefix src "http://" = false -> HasPrefix src "https://" = false ->
     imageMarkup inline false src alt = fallback src).
Proof.
  intros Hproto. cbv zeta.
  assert (Hdata : forall meta payload,
             Contains meta "," = false ->
             dataURIBase64 ("data:image/" ++ meta ++ "," ++ payload) = payload).
  { intros meta payload Hmeta.
    assert (Hhead : Contains ("image/" ++ meta) "," = false) by (cbn; exact Hmeta).
    change ("data:image/" ++ meta ++ "," ++ payload)
      with ("data:" ++ ("image/" ++ meta) ++ "," ++ payload).
    unfold dataURIBase64. rewrite HasPrefix_append. cbn [negb].
    replace ("data:" ++ ("image/" ++ meta) ++ "," ++ payload)
      with (("data:" ++ "image/" ++ meta) ++ String "," payload)
      by (now rewrite !append_assoc).
    rewrite (Index_byte "," ("data:" ++ "image/" ++ meta) payload)
      by (cbn; exact Hmeta).
    rewrite len_append. cbn [String.length].
    destruct payload as [|a p]; cbn [String.length].
    - replace (Nat.leb _ _) with true; [reflexivity |].
      symmetry. apply Nat.leb_le. lia.
    - replace (Nat.leb _ _) with false.
      + replace (len ("data:" ++ "image/" ++ meta) + 1)
          with (len (("data:" ++ "image/" ++ meta) ++ ","))
          by (rewrite len_append; reflexivity).
        replace (("data:" ++ "image/" ++ meta) ++ String "," (String a p))
          with ((("data:" ++ "image/" ++ meta) ++ ",") ++ String a p)
          by (now rewrite !append_assoc).
        apply drop_append.
      + symmetry. apply Nat.leb_gt. lia. }
  split; [| split].
  - intros meta payload Hmeta Hne. unfold imageMarkup.
    rewrite Hproto. cbn [negb andb].
    rewrite HasPrefix_append, (Hdata meta payload Hmeta).
    pose proof (renderInlineImage_supported payload Hne Hproto) as Hr.
    now rewrite (nonEmpty_true _ Hne), (nonEmpty_true _ Hr).
  - intros meta Hmeta. unfold imageMarkup.
    rewrite Hproto. cbn [negb andb].
    rewrite HasPrefix_append.
    pose proof (Hdata meta "" Hmeta) as Hd.
    change ("data:image/" ++ meta ++ "," ++ "") with ("data:image/" ++ meta ++ ",") in Hd.
    rewrite Hd. reflexivity.
  - intros src H1 H2 H3 H4. unfold imageMarkup.
    rewrite Hproto, H1, H2, H3, H4. reflexivity.
Qed.

(** *** Quote placeholders, from the blockquote pass to the finalizer *)

(** X18: the placeholder that the blockquote pass writes for the record
    with index [i] is replaced, newlines around it kept, by the quote box of
    that record; were there no such record, the placeholder would stay as
    text. *)
Theorem quote_placeholder_round_trip
        (quoteData : list quote) (i : nat) (rest_ : string) :
  (Z.of_nat i <= maxInt)%Z ->
  resolveQuotePlaceholders quoteData (quotePlaceholder (Z.of_nat i) ++ rest_)
  = LF ++ match nth_error quoteData i with
          | Some q => renderQuoteBox (q_from q) (q_date q) (Split (q_content q) LF)
          | None => "[[MATCHA_QUOTE:" ++ itoa (Z.of_nat i) ++ "]]"
          end
    ++ LF ++ resolveQuotePlaceholders quoteData rest_.
Proof.
  intros Hmax. unfold quotePlaceholder.
  destruct (itoa_number (Z.of_nat i) ltac:(lia)) as [Hne Hd].
  replace ((LF ++ "[[MATCHA_QUOTE:" ++ itoa (Z.of_nat i) ++ "]]" ++ LF) ++ rest_)
    with (Repeat LF 1
          ++ ("[[MATCHA_QUOTE:" ++ itoa (Z.of_nat i) ++ "]]") ++ Repeat LF 1 ++ rest_)
    by (unfold LF; cbn [Repeat append]; rewrite !append_assoc; reflexivity).
  rewrite resolve_newlines.
  rewrite (quote_placeholder_resolution quoteData _ (Repeat LF 1 ++ rest_) Hne Hd).
  cbv zeta. rewrite Sscanf_d_itoa by lia. rewrite Nat2Z.id, resolve_newlines.
  unfold LF. cbn [Repeat append]. rewrite ?append_assoc. reflexivity.
Qed.

(** *** Lookups among the accounts *)

Lemma firstIndex_spec (test : config.Account -> bool)
      (l : list config.Account) (i : nat) :
  config.firstIndex test l = Some i ->
  exists a, nth_error l i = Some a /\ test a = true /\
            forall j b, j < i -> nth_error l j = Some b -> test b = false.
Proof.
  intros H. destruct (firstIndex_split test l i H) as (l1 & a & l2 & -> & <- & Ha & Hl1).
  exists a. split; [| split; [exact Ha |]].
  - rewrite nth_error_app2, Nat.sub_diag by lia. reflexivity.
  - intros j b Hj Hb. rewrite nth_error_app1 in Hb by exact Hj.
    apply Hl1. eapply nth_error_In, Hb.
Qed.

(** X19: [GetAccountByID] and [GetAccountByEmail] point to the first
    account with the id, or the address, and are nil exactly when no
    account has it, so of two accounts with one address the later is never
    returned; [GetFirstAccount] is nil exactly when [HasAccounts] is
    false. *)
Theorem account_lookups (c : config.Config) (key : string) :
  (forall i, config.GetAccountByID c key = Some i ->
     exists a, nth_error (config.Accounts c) i = Some a /\ config.ID a = key /\
       forall j b, j < i -> nth_error (config.Accounts c) j = Some b ->
                   config.ID b <> key) /\
  (config.GetAccountByID c key = None <->
   forall a, In a (config.Accounts c) -> config.ID a <> key) /\
  (forall i, config.GetAccountByEmail c key = Some i ->
     exists a, nth_error (config.Accounts c) i = Some a /\ config.Email a = key /\
       forall j b, j < i -> nth_error (config.Accounts c) j = Some b ->
                   config.Email b <> key) /\
  (config.GetAccountByEmail c key = None <->
   forall a, In a (config.Accounts c) -> config.Email a <> key) /\
  (config.GetFirstAccount c = None <-> config.HasAccounts c = false) /\
  (config.HasAccounts c = true ->
   config.GetFirstAccount c = Some 0 /\
   config.deref c (config.GetFirstAccount c) = hd_error (config.Accounts c)).
Proof.
  unfold config.GetAccountByID, config.GetAccountByEmail, config.GetFirstAccount,
    config.HasAccounts, config.deref.
  split; [| split; [| split; [| split; [| split]]]].
  - intros i H. destruct (firstIndex_spec _ _ _ H) as (a & Hn & Ha & Hfirst).
    apply String.eqb_eq in Ha. exists a. repeat split; try assumption.
    intros j b Hj Hb. apply String.eqb_neq. exact (Hfirst j b Hj Hb).
  - split.
    + intros H a Ha. apply String.eqb_neq.
      exact (proj1 (firstIndex_none _ _) H a Ha).
    + intros H. apply firstIndex_none. intros a Ha. apply String.eqb_neq.
      now apply H.
  - intros i H. destruct (firstIndex_spec _ _ _ H) as (a & Hn & Ha & Hfirst).
    apply String.eqb_eq in Ha. exists a. repeat split; try assumption.
    intros j b Hj Hb. apply String.eqb_neq. exact (Hfirst j b Hj Hb).
  - split.
    + intros H a Ha. apply String.eqb_neq.
      exact (proj1 (firstIndex_none _ _) H a Ha).
    + intros H. apply firstIndex_none. intros a Ha. apply String.eqb_neq.
      now apply H.
  - now destruct (Nat.ltb 0 (List.length (config.Accounts c))).
  - intros H. rewrite H. split; [reflexivity |].
    now destruct (config.Accounts c).
Qed.

End Renderer.

(** ** The renderer in the sample surroundings

    The statements above, taken at the sample terminal, parser and bodies:
    no picture decodes, the tty answers on stderr with 50 rows of 1000
    pixels, and the styles leave the text as it is. *)

Abbreviation sampleInline terminal body inline :=
  (ProcessBodyWithInline terminal asciiLower sampleWinsize None
     (fun _ => None) (fun _ => None) (fun _ => "")
     unit (fun _ _ => None) (fun _ _ => "") (fun s => s) (fun s => s)
     textFragment sampleDocument (fun _ => None) (fun md => Some md)
     body inline (fun s => s) (fun s => s) (fun s => s) false).

Abbreviation sampleBody terminal body :=
  (ProcessBody terminal asciiLower sampleWinsize None
     (fun _ => None) (fun _ => None) (fun _ => "")
     unit (fun _ _ => None) (fun _ _ => "") (fun s => s) (fun s => s)
     textFragment sampleDocument (fun _ => None) (fun md => Some md)
     body (fun s => s) (fun s => s) (fun s => s) false).

(** The link of the tests, without and with hyperlink support. *)
Example link_without_hyperlinks :
  sampleBody plainTerminal linkBody = Ok "Click here <http://example.com>".
Proof. vm_compute. reflexivity. Qed.

Example link_with_hyperlinks :
  sampleBody kittyTerminal linkBody
  = Ok (ESC ++ "]8;;http://example.com" ++ BEL ++ "Click here" ++ ESC ++ "]8;;" ++ BEL).
Proof. vm_compute. reflexivity. Qed.



Lemma processBody_error_policy_witness :
  exists text text',
    sampleInline kittyTerminal imageBody [] = Ok text /\
    sampleBody kittyTerminal imageBody = Ok text'.
Proof.
  pose proof (processBody_error_policy kittyTerminal asciiLower sampleWinsize None
                (fun _ => None) (fun _ => None) (fun _ => "")
                unit (fun _ _ => None) (fun _ _ => "") (fun s => s) (fun s => s)
                textFragment sampleDocument (fun _ => None) (fun md => Some md)
                imageBody [] (fun s => s) (fun s => s) (fun s => s) false) as H.
  cbv zeta in H. destruct H as (_ & _ & _ & _ & H).
  apply H. discriminate.
Defined.

Lemma kittyInlineImage_chunks_witness :
  exists (chunks : list string) (final : string),
    Join (chunks ++ [final]) "" = "iVBORw0KGgo=" /\
    (forall c, In c chunks -> len c = 4096) /\
    1 <= len final <= 4096 /\
    kittyInlineImage sampleWinsize None (fun _ => None) (fun _ => None) "iVBORw0KGgo="
    = kittyFrames true (chunks ++ [final])
      ++ LF ++ "[[MATCHA_IMG_ROWS:"
      ++ itoa (imageRows sampleWinsize None (fun _ => None) (fun _ => None) "iVBORw0KGgo=")
      ++ "]]" ++ LF.
Proof.
  apply (kittyInlineImage_chunks sampleWinsize None (fun _ => None) (fun _ => None)
           "iVBORw0KGgo=").
  discriminate.
Defined.


Lemma renderInlineImage_dispatch_witness :
  renderInlineImage kittyTerminal asciiLower sampleWinsize None
    (fun _ => None) (fun _ => None) "iVBORw0KGgo="
  = kittyInlineImage sampleWinsize None (fun _ => None) (fun _ => None) "iVBORw0KGgo=".
Proof.
  pose proof (renderInlineImage_dispatch kittyTerminal asciiLower sampleWinsize None
                (fun _ => None) (fun _ => None) "iVBORw0KGgo="
                ltac:(discriminate)) as H.
  cbv zeta in H. destruct H as (H & _ & _).
  apply H. reflexivity.
Defined.

Lemma image_row_count_witness :
  getTerminalCellSize sampleWinsize None = 20%Z /\
  let rows := imageRows sampleWinsize None (fun s => Some s) (fun _ => Some 45%Z)
                "iVBORw0KGgo=" in
  (1 <= rows /\ 45 <= rows * 20 /\ (1 < rows -> (rows - 1) * 20 < 45))%Z.
Proof.
  pose proof (image_row_count sampleWinsize None (fun s => Some s) (fun _ => Some 45%Z)
                "iVBORw0KGgo=") as H.
  cbv zeta in H. destruct H as ((_ & _ & Hq & _) & Hrows & _).
  split.
  - rewrite Hq; reflexivity.
  - apply (Hrows "iVBORw0KGgo=" 45%Z eq_refl eq_refl); vm_compute; discriminate.
Defined.

Lemma expandImageRowPlaceholders_spec_witness :
  expandImageRowPlaceholders (("[[MATCHA_IMG_ROWS:" ++ itoa 3 ++ "]]") ++ "below")
  = Repeat LF 3 ++ expandImageRowPlaceholders "below".
Proof.
  pose proof expandImageRowPlaceholders_spec as H.
  cbv zeta in H. destruct H as (H & _).
  apply (H 3%Z "below"). unfold maxInt. lia.
Defined.

Lemma header_lines_are_consumed_witness :
  In "See you." (Split ("On Monday, bob@x.com wrote:" ++ LF ++ "See you.") LF) /\
  isHeader "See you." = false.
Proof.
  pose proof (header_lines_are_consumed unit (fun _ _ => None) (fun _ _ => "")
                (fun s => s) (fun s => s)
                ("On Monday, bob@x.com wrote:" ++ LF ++ "See you.")) as H.
  cbv zeta in H. destruct H as (_ & H & _).
  apply H.
  - intros line [<- | [<- | []]]; reflexivity.
  - left. reflexivity.
Defined.

(** X20: with images disabled, or with no image protocol detected, the
    render does not depend on what the tty, the base64 and image decoders
    or a remote fetch would answer: none of them is asked. *)
Theorem render_without_images_asks_nothing
        (Getenv ToLower : string -> string)
        (IoctlGetWinsize IoctlGetWinsize' : Z -> option Winsize)
        (openTty openTty' : option Z)
        (base64Decode base64Decode' : string -> option string)
        (imageDecodeHeight imageDecodeHeight' : string -> option Z)
        (remotePNGBase64 remotePNGBase64' : string -> string)
        (Instant : Type) (timeParse : string -> string -> option Instant)
        (timeFormat : Instant -> string -> string)
        (quoteBoxStyle quoteHeaderStyle : string -> string)
        (ParseFragment : string -> string -> list node)
        (NewDocumentFromReader : string -> option (list node))
        (quotedprintableReadAll goldmarkConvert : string -> option string)
        (rawBody : string) (inline : list InlineImage)
        (h1Style h2Style bodyStyle : string -> string) (disableImages : bool) :
  disableImages = true \/ imageProtocolSupported Getenv ToLower = false ->
  ProcessBodyWithInline Getenv ToLower IoctlGetWinsize openTty base64Decode
    imageDecodeHeight remotePNGBase64 Instant timeParse timeFormat
    quoteBoxStyle quoteHeaderStyle ParseFragment NewDocumentFromReader
    quotedprintableReadAll goldmarkConvert
    rawBody inline h1Style h2Style bodyStyle disableImages
  = ProcessBodyWithInline Getenv ToLower IoctlGetWinsize' openTty' base64Decode'
      imageDecodeHeight' remotePNGBase64' Instant timeParse timeFormat
      quoteBoxStyle quoteHeaderStyle ParseFragment NewDocumentFromReader
      quotedprintableReadAll goldmarkConvert
      rawBody inline h1Style h2Style bodyStyle disableImages.
Proof.
  intros H. unfold ProcessBodyWithInline.
  rewrite (processBody_without_protocol Getenv ToLower IoctlGetWinsize openTty
             base64Decode imageDecodeHeight remotePNGBase64 Instant timeParse
             timeFormat quoteBoxStyle quoteHeaderStyle ParseFragment
             NewDocumentFromReader quotedprintableReadAll goldmarkConvert
             rawBody _ h1Style h2Style bodyStyle disableImages H).
  rewrite (processBody_without_protocol Getenv ToLower IoctlGetWinsize' openTty'
             base64Decode' imageDecodeHeight' remotePNGBase64' Instant timeParse
             timeFormat quoteBoxStyle quoteHeaderStyle ParseFragment
             NewDocumentFromReader quotedprintableReadAll goldmarkConvert
             rawBody _ h1Style h2Style bodyStyle disableImages H).
  reflexivity.
Qed.

(** ** The further properties on samples *)

Lemma dataURIBase64_payload_witness :
  dataURIBase64 "data:image/png;base64,iVBORw0KGgo=" = "iVBORw0KGgo=".
Proof.
  pose proof dataURIBase64_payload as (H & _).
  exact (H "image/png;base64" "iVBORw0KGgo=" eq_refl).
Defined.

Lemma renderInlineImage_nonempty_witness :
  "iVBORw0KGgo=" <> "" /\ imageProtocolSupported kittyTerminal asciiLower = true.
Proof.
  apply (proj1 (renderInlineImage_nonempty kittyTerminal asciiLower sampleWinsize None
                  (fun _ => None) (fun _ => None) "iVBORw0KGgo=")).
  intros H. vm_compute in H. discriminate H.
Defined.

Lemma kitty_image_fallback_is_clickable_witness :
  hyperlinkSupported kittyTerminal asciiLower = true.
Proof.
  exact (proj1 (kitty_image_fallback_is_clickable kittyTerminal asciiLower
                  sampleWinsize None (fun _ => None) (fun _ => None) (fun _ => "")
                  None false "cid:img1" "" eq_refl)).
Defined.

Lemma newline_collapse_witness :
  ReplaceAllString newlinesRegex ("a" ++ LF ++ LF ++ "b") (LF ++ LF)
  = "a" ++ LF ++ LF ++ "b".
Proof.
  pose proof (newline_collapse ("a" ++ LF ++ LF ++ "b")) as H.
  cbv zeta in H. destruct H as (_ & _ & H).
  apply H. reflexivity.
Defined.

Lemma finalize_ordinary_text_witness :
  finalize unit (fun _ _ => None) (fun _ _ => "") (fun s => s) (fun s => s)
    ("Hello" ++ LF ++ "World") []
  = "Hello" ++ LF ++ "World".
Proof.
  apply (finalize_ordinary_text unit (fun _ _ => None) (fun _ _ => "")
           (fun s => s) (fun s => s) [] ("Hello" ++ LF ++ "World")).
  - reflexivity.
  - reflexivity.
  - intros l [<- | [<- | []]]; split; reflexivity.
Defined.

Lemma removeStyleScript_removes_all_witness : removeStyleScript linkDoc = linkDoc.
Proof.
  pose proof (removeStyleScript_removes_all linkDoc) as (_ & _ & H).
  apply H. reflexivity.
Defined.

Lemma inline_parts_ignored_without_protocol_witness :
  ProcessBodyWithInline kittyTerminal asciiLower sampleWinsize None
    (fun _ => None) (fun _ => None) (fun _ => "")
    unit (fun _ _ => None) (fun _ _ => "") (fun s => s) (fun s => s)
    textFragment sampleDocument (fun _ => None) (fun md => Some md)
    imageBody [mkInlineImage "<img1>" "iVBORw0KGgo="]
    (fun s => s) (fun s => s) (fun s => s) true
  = ProcessBody kittyTerminal asciiLower sampleWinsize None
      (fun _ => None) (fun _ => None) (fun _ => "")
      unit (fun _ _ => None) (fun _ _ => "") (fun s => s) (fun s => s)
      textFragment sampleDocument (fun _ => None) (fun md => Some md)
      imageBody (fun s => s) (fun s => s) (fun s => s) true.
Proof.
  apply inline_parts_ignored_without_protocol. left. reflexivity.
Defined.

Lemma inline_attachment_is_found_witness :
  mapGet
    (inlineMap
       (inlineImagesFromAttachments
          ([] ++ [fetcher.mkAttachment "inline" "2" "PNG" "base64" "image/png"
                    "img1" true])))
    "img1"
  = "UE5H".
Proof.
  pose proof (inline_attachment_is_found kittyTerminal asciiLower sampleWinsize None
                (fun _ => None) (fun _ => None) (fun _ => "") []
                (fetcher.mkAttachment "inline" "2" "PNG" "base64" "image/png"
                   "img1" true)
                "<img1>" "") as H.
  cbv zeta in H.
  destruct (H eq_refl eq_refl ltac:(discriminate) ltac:(discriminate) eq_refl eq_refl)
    as (_ & _ & Hget & _).
  exact Hget.
Defined.

Lemma AddAccount_then_GetAccountByID_witness :
  config.GetAccountByID
    (config.AddAccount (config.mkConfig [] false)
       (config.mkAccount "" "Ann" "ann@example.com" "secret" "gmail" "" "" 0 "" 0)
       "6ba7b810-9dad-11d1-80b4-00c04fd430c8")
    "6ba7b810-9dad-11d1-80b4-00c04fd430c8"
  = Some 0.
Proof.
  pose proof (AddAccount_then_GetAccountByID (config.mkConfig [] false)
                (config.mkAccount "" "Ann" "ann@example.com" "secret" "gmail" "" "" 0 "" 0)
                "6ba7b810-9dad-11d1-80b4-00c04fd430c8") as H.
  cbv zeta in H. destruct H as (_ & _ & _ & H).
  destruct (H eq_refl) as (H1 & _). exact H1.
Defined.

Lemma RemoveAccount_removes_first_witness :
  config.GetAccountByID
    (fst (config.RemoveAccount
            (config.mkConfig
               [config.mkAccount "a" "Ann" "ann@example.com" "secret" "gmail" "" "" 0 "" 0;
                config.mkAccount "b" "Bob" "bob@example.com" "secret" "icloud" "" "" 0 "" 0]
               false)
            "a"))
    "a"
  = None.
Proof.
  pose proof (RemoveAccount_removes_first
                (config.mkConfig
                   [config.mkAccount "a" "Ann" "ann@example.com" "secret" "gmail" "" "" 0 "" 0;
                    config.mkAccount "b" "Bob" "bob@example.com" "secret" "icloud" "" "" 0 "" 0]
                   false)
                "a") as H.
  cbv zeta in H. destruct H as (_ & _ & _ & _ & _ & H).
  apply H. cbn [map config.Accounts config.ID].
  constructor.
  - intros [H1 | []]. discriminate H1.
  - constructor; [intros [] | constructor].
Defined.

Lemma account_endpoints_witness :
  config.GetIMAPPort
    (config.mkAccount "a" "Ann" "ann@example.com" "secret" "gmail" "" "mail.example.com"
       143 "mail.example.com" 25)
  = 993%Z /\
  config.GetSMTPPort
    (config.mkAccount "a" "Ann" "ann@example.com" "secret" "gmail" "" "mail.example.com"
       143 "mail.example.com" 25)
  = 587%Z.
Proof.
  pose proof (account_endpoints
                (config.mkAccount "a" "Ann" "ann@example.com" "secret" "gmail" ""
                   "mail.example.com" 143 "mail.example.com" 25)) as (_ & _ & H & _).
  apply H. discriminate.
Defined.

Lemma wrapBase64_lines_witness :
  exists (lines : list string) (final : string),
    Join (lines ++ [final]) "" = "TWFu" /\
    (forall l, In l lines -> len l = 76) /\
    1 <= len final <= 76 /\
    sender.wrapBase64 "TWFu" = Join (lines ++ [final]) sender.CRLF.
Proof.
  apply (proj2 (wrapBase64_lines "TWFu")). discriminate.
Defined.

Lemma quoted_lines_become_one_box_witness :
  styleQuotedReplies unit (fun _ _ => None) (fun _ _ => "") (fun s => s) (fun s => s)
    (Join ["> line one"; " > line two "] LF)
  = renderQuoteBox (fun s => s) (fun s => s) "" "" ["line one"; "line two"].
Proof.
  apply (quoted_lines_become_one_box unit (fun _ _ => None) (fun _ _ => "")
           (fun s => s) (fun s => s) ["> line one"; " > line two "]).
  - discriminate.
  - intros l [<- | [<- | []]]; split; reflexivity.
Defined.

Lemma image_source_dispatch_witness :
  imageMarkup kittyTerminal asciiLower sampleWinsize None
    (fun _ => None) (fun _ => None) (fun _ => "") None false "file:///tmp/x.png" "logo"
  = hyperlink kittyTerminal asciiLower "file:///tmp/x.png"
      (LF ++ " [Click here to view image: logo] " ++ LF).
Proof.
  pose proof (image_source_dispatch kittyTerminal asciiLower sampleWinsize None
                (fun _ => None) (fun _ => None) (fun _ => "") None "logo" eq_refl) as H.
  cbv zeta in H. destruct H as (_ & _ & H).
  exact (H "file:///tmp/x.png" eq_refl eq_refl eq_refl eq_refl).
Defined.

Lemma quote_placeholder_round_trip_witness :
  resolveQuotePlaceholders (fun s => s) (fun s => s)
    [mkQuote "bob@x.com" "" "See you."] (quotePlaceholder 0 ++ "Bye")
  = LF ++ renderQuoteBox (fun s => s) (fun s => s) "bob@x.com" "" ["See you."]
    ++ LF ++ "Bye".
Proof.
  apply (quote_placeholder_round_trip (fun s => s) (fun s => s)
           [mkQuote "bob@x.com" "" "See you."] 0 "Bye").
  vm_compute. discriminate.
Defined.

Lemma account_lookups_witness :
  config.GetFirstAccount
    (config.mkConfig
       [config.mkAccount "a" "Ann" "ann@example.com" "secret" "gmail" "" "" 0 "" 0] false)
  = Some 0.
Proof.
  pose proof (account_lookups
                (config.mkConfig
                   [config.mkAccount "a" "Ann" "ann@example.com" "secret" "gmail" "" "" 0 "" 0]
                   false)
                "a") as (_ & _ & _ & _ & _ & H).
  destruct (H eq_refl) as [H0 _]. exact H0.
Defined.

Lemma render_without_images_asks_nothing_witness :
  ProcessBodyWithInline kittyTerminal asciiLower sampleWinsize None
    (fun _ => None) (fun _ => None) (fun _ => "")
    unit (fun _ _ => None) (fun _ _ => "") (fun s => s) (fun s => s)
    textFragment sampleDocument (fun _ => None) (fun md => Some md)
    imageBody [mkInlineImage "<img1>" "iVBORw0KGgo="]
    (fun s => s) (fun s => s) (fun s => s) true
  = ProcessBodyWithInline kittyTerminal asciiLower (fun _ => None) (Some 3%Z)
      (fun s => Some s) (fun _ => Some 45%Z) (fun _ => "iVBORw0KGgo=")
      unit (fun _ _ => None) (fun _ _ => "") (fun s => s) (fun s => s)
      textFragment sampleDocument (fun _ => None) (fun md => Some md)
      imageBody [mkInlineImage "<img1>" "iVBORw0KGgo="]
      (fun s => s) (fun s => s) (fun s => s) true.
Proof.
  apply render_without_images_asks_nothing. left. reflexivity.
Defined.
